(** * canvas-vectors: the vector field of [field.js]

    A shallow embedding of [src/field.js] (the [Vector] and [VectorField]
    objects, their methods, and [setup]) together with the properties the
    specification states about them.

    Modelling conventions.
    - The program is modelled at two precisions.  In the main model a
      JavaScript Number is a real number and arithmetic is exact: it serves for
      what rounding does not decide (which calls are made and in which order,
      the shape of the grid, loop counts, bounds with slack, what is left
      unchanged).  Module [Double] has the same expressions in IEEE binary64
      (the primitive floats of Rocq, which compute), and serves where rounding
      decides the result: the spacing [Math.floor(width / cols)], the hue
      [Math.floor(360 * factor * 1.1) % 360], and the endpoint arithmetic of
      [Vector.draw].  A spacing or hue named in a statement about the exact
      model is the program's where the exact quotient or product is a whole
      number, or is not within rounding distance of one.
    - Division is only meaningful for a non-zero divisor (JavaScript yields
      [Infinity] or [NaN] there, the reals of Rocq yield [0]); statements
      about [Vector.update], which divides by the surface width, assume that
      width positive, as it is whenever the page holds a vector
      ([setup_vector_width]).
    - [null] in a numeric field is [None]; arithmetic coerces it with
      [ToNumber], as JavaScript does ([null] becomes [0]).
    - The global drawing context [ctx] is modelled by the sequence of calls
      made on it; the global [canvas] is an explicit argument.
    - A method that mutates [this] returns the new object. *)

From Stdlib Require Import PrimFloat FloatOps SpecFloat.
From Stdlib Require Import ZArith QArith Reals Lra Lia Bool.
From Stdlib Require Import String DecimalString List.
From Equations Require Import Equations.
Import ListNotations.

#[local] Set Warnings "-inexact-float".

Open Scope R_scope.

(** ** The platform: [Math], the canvas and its drawing context *)

Module Math.

Definition sqrt (x : R) : R := R_sqrt.sqrt x.
Definition sin (x : R) : R := Rtrigo_def.sin x.
Definition cos (x : R) : R := Rtrigo_def.cos x.
Definition PI : R := Rtrigo1.PI.

(** [Math.floor]: the greatest integer not above [x]. *)
Definition floor (x : R) : Z := Int_part x.

(** The least integer not below [x] (used to count loop iterations). *)
Definition ceil (x : R) : Z := (- Int_part (- x))%Z.

(** [Math.atan2 y x]: the angle of the point [(x, y)], in [(-PI, PI]],
    with [atan2 0 0 = 0]. *)
Definition atan2 (y x : R) : R :=
  if Rlt_dec 0 x then atan (y / x)
  else if Rlt_dec x 0 then
    if Rle_dec 0 y then atan (y / x) + PI else atan (y / x) - PI
  else if Rlt_dec 0 y then PI / 2
  else if Rlt_dec y 0 then - PI / 2
  else 0.

End Math.

(** [ToNumber] on a numeric field that may still hold [null]. *)
Definition ToNumber (o : option R) : R :=
  match o with
  | Some r => r
  | None => 0
  end.

(** The remainder operator [%] on integer-valued Numbers: truncated
    division, the sign follows the dividend. *)
Definition js_rem (a b : Z) : Z := Z.rem a b.

(** An integer-valued Number inside a template literal. *)
Definition string_of_Z (z : Z) : string := NilZero.string_of_int (Z.to_int z).

Record Canvas : Type := mkCanvas { width : R; height : R }.

(** One call on the 2-D drawing context (an assignment to one of its
    properties counts as a call). *)
Inductive CtxCall : Type :=
| strokeStyle (color : string)
| fillStyle (color : string)
| lineWidth (w : R)
| beginPath
| moveTo (x y : R)
| lineTo (x y : R)
| closePath
| stroke
| fill
| clearRect (x y w h : R).

(** ** Effects: calls on [ctx], and [TypeError] *)

Inductive outcome (A : Type) : Type :=
| Ok (a : A)
| TypeError.
Arguments Ok {A} a.
Arguments TypeError {A}.

(** A computation that draws: the calls it made on [ctx], in order, and how
    it ended. *)
Definition Draw (A : Type) : Type := (list CtxCall * outcome A)%type.

Definition ret {A} (a : A) : Draw A := ([], Ok a).

Definition throw {A} : Draw A := ([], TypeError).

Definition bind {A B} (m : Draw A) (k : A -> Draw B) : Draw B :=
  match m with
  | (l1, Ok a) => let (l2, r) := k a in (l1 ++ l2, r)
  | (l1, TypeError) => (l1, TypeError)
  end.

Definition call (c : CtxCall) : Draw unit := ([c], Ok tt).

Definition calls {A} (m : Draw A) : list CtxCall := fst m.
Definition result {A} (m : Draw A) : outcome A := snd m.

Declare Scope draw_scope.
Delimit Scope draw_scope with draw.
Notation "x <- m ;; k" := (bind m (fun x => k))
  (at level 61, m at next level, right associativity) : draw_scope.
Notation "m ;; k" := (bind m (fun _ => k))
  (at level 61, right associativity) : draw_scope.
Open Scope draw_scope.

(** [for (let x of l) body], for a body that only reads [x]. *)
Fixpoint for_of {A} (l : list A) (body : A -> Draw unit) : Draw unit :=
  match l with
  | [] => ret tt
  | x :: t => body x ;; for_of t body
  end.

(** [for (let x of l) body], for a body that mutates the object [x]: the
    result is the sequence of the mutated objects. *)
Fixpoint for_of_mut {A} (l : list A) (body : A -> Draw A) : Draw (list A) :=
  match l with
  | [] => ret []
  | x :: t =>
      x' <- body x ;;
      t' <- for_of_mut t body ;;
      ret (x' :: t')
  end.

(** ** Free functions *)

Definition dist (x0 y0 x1 y1 : R) : R :=
  Math.sqrt ((x1 - x0) * (x1 - x0) + (y1 - y0) * (y1 - y0)).

Definition angleBetween (x0 y0 x1 y1 : R) : R :=
  Math.atan2 (y1 - y0) (x1 - x0).

(** ** Vector *)

Record Vector : Type := mkVector {
  midX : R;
  midY : R;
  angle : option R;
  len : option R
}.

Definition new_Vector (midX midY : R) : Vector :=
  mkVector midX midY None None.

Definition set_angle (v : Vector) (a : R) : Vector :=
  mkVector (midX v) (midY v) (Some a) (len v).

Definition set_len (v : Vector) (l : R) : Vector :=
  mkVector (midX v) (midY v) (angle v) (Some l).

Module Vector.

Definition headRadius : R := 5.

(** The loop [for (let i = 0; i < 3; ++i)] of [drawArrow]: the [n]
    iterations that remain from index [i], with the local [angle]. *)
Fixpoint drawArrow_loop (n i : nat) (x y angle : R) : Draw unit :=
  match n with
  | O => ret tt
  | S n' =>
      let px := headRadius * Math.cos angle + x in
      let py := headRadius * Math.sin angle + y in
      let angle := angle + 2 * Math.PI / 3 in
      (if Nat.eqb i 0 then call (moveTo px py) else call (lineTo px py)) ;;
      drawArrow_loop n' (S i) x y angle
  end.

Definition drawArrow (this : Vector) (x y : R) (color : string) : Draw unit :=
  let angle := ToNumber (angle this) in
  call (fillStyle color) ;;
  call beginPath ;;
  drawArrow_loop 3 0 x y angle ;;
  call closePath ;;
  call fill.

(** The locals of [draw]. *)
Definition draw_dy (this : Vector) : R :=
  ToNumber (len this) * Math.sin (ToNumber (angle this)).
Definition draw_dx (this : Vector) : R :=
  ToNumber (len this) * Math.cos (ToNumber (angle this)).
Definition draw_y0 (this : Vector) : R := midY this + draw_dy this / 2.
Definition draw_x0 (this : Vector) : R := midX this + draw_dx this / 2.
Definition draw_y1 (this : Vector) : R := draw_y0 this - draw_dy this.
Definition draw_x1 (this : Vector) : R := draw_x0 this - draw_dx this.

Definition draw (this : Vector) (color : string) : Draw unit :=
  call (strokeStyle color) ;;
  call (lineWidth 3) ;;
  call beginPath ;;
  call (moveTo (draw_x0 this) (draw_y0 this)) ;;
  call (lineTo (draw_x1 this) (draw_y1 this)) ;;
  call stroke ;;
  drawArrow this (draw_x0 this) (draw_y0 this) color.

(** The locals of [update], in exact arithmetic ([Double.update_hue] is the
    hue in doubles). *)
Definition update_factor (canvas : Canvas) (d : R) : R :=
  d / (width canvas * 1.3).
Definition update_hue (factor : R) : Z :=
  js_rem (Math.floor (360 * factor * 1.1)) 360.
Definition update_len (factor : R) : R :=
  if Rgt_dec (200 * factor) 30 then 30 else 200 * factor.

Definition hsl (hue : Z) : string :=
  ("hsl(" ++ string_of_Z hue ++ ", 70%, 35%)")%string.

Definition update (canvas : Canvas) (this : Vector) (mouseX mouseY : R)
  : Draw Vector :=
  let this :=
    set_angle this (angleBetween (midX this) (midY this) mouseX mouseY) in
  let d := dist (midX this) (midY this) mouseX mouseY in
  let factor := update_factor canvas d in
  let hue := update_hue factor in
  let this := set_len this (update_len factor) in
  draw this (hsl hue) ;;
  ret this.

End Vector.

(** ** VectorField *)

Record VectorField : Type := mkVectorField {
  size : R * R;
  offsets : R * R;
  grid : list (list Vector)
}.

Definition new_VectorField (cols rows xOffset yOffset : R) : VectorField :=
  mkVectorField (cols, rows) (xOffset, yOffset) [].

(** [this.grid.push(row)] *)
Definition grid_push (this : VectorField) (row : list Vector) : VectorField :=
  mkVectorField (size this) (offsets this) (grid this ++ [row]).

Definition set_grid (this : VectorField) (g : list (list Vector))
  : VectorField :=
  mkVectorField (size this) (offsets this) g.

(** A loop [for (let i = 0; i < bound; i++)] whose test holds at [i] has
    fewer iterations left after [i]. *)
Lemma for_loop_decreases (bound : R) (i : nat) :
  INR i < bound ->
  (Z.to_nat (up bound) - S i < Z.to_nat (up bound) - i)%nat.
Proof.
  intros Hlt.
  destruct (archimed bound) as [Hup _].
  assert (Hz : (Z.of_nat i < up bound)%Z).
  { apply lt_IZR. rewrite <- INR_IZR_INZ. lra. }
  lia.
Qed.

Module VectorField.

(** The locals [spaceX] and [spaceY] of [init], with the exact quotient.
    They are the program's values when the quotient is a whole number (the
    division of doubles is exact then); in general the program floors the
    rounded quotient, [Double.init_space], which can be one more or one
    less. *)
Definition init_spaceX (canvas : Canvas) (this : VectorField) : R :=
  IZR (Math.floor (width canvas / fst (size this))).
Definition init_spaceY (canvas : Canvas) (this : VectorField) : R :=
  IZR (Math.floor (height canvas / snd (size this))).

(** The inner loop of [init], from index [i], with the locals [x] and
    [row]; [y] is not assigned in it.  It returns the final [x] and [row].
    The counter is a whole number, compared with [this.size[0]] as a real at
    every iteration. *)
Equations? init_row (this : VectorField) (spaceX y : R)
  (i : nat) (x : R) (row : list Vector) : R * list Vector
  by wf (Z.to_nat (up (fst (size this))) - i)%nat lt :=
  init_row this spaceX y i x row with Rlt_dec (INR i) (fst (size this)) := {
    | left _ =>
        init_row this spaceX y (S i) (x + spaceX) (row ++ [new_Vector x y])
    | right _ => (x, row) }.
Proof. now apply for_loop_decreases. Qed.

(** The outer loop of [init], from index [j], with the locals [x] and [y]
    and the field being filled. *)
Equations? init_rows (spaceX spaceY : R)
  (j : nat) (x y : R) (this : VectorField) : VectorField
  by wf (Z.to_nat (up (snd (size this))) - j)%nat lt :=
  init_rows spaceX spaceY j x y this with Rlt_dec (INR j) (snd (size this)) := {
    | left _ =>
        let row := snd (init_row this spaceX y 0 x []) in
        let y := y + spaceY in
        let x := fst (offsets this) in
        init_rows spaceX spaceY (S j) x y (grid_push this row)
    | right _ => this }.
Proof. now apply for_loop_decreases. Qed.

Definition init (canvas : Canvas) (this : VectorField) : VectorField :=
  let spaceX := init_spaceX canvas this in
  let spaceY := init_spaceY canvas this in
  let '(x, y) := offsets this in
  init_rows spaceX spaceY 0 x y this.


(** [row[0].midY] throws when the row is empty, and iterating
    [this.grid[0]] throws when the grid is empty. *)
Definition drawGrid (canvas : Canvas) (this : VectorField) : Draw unit :=
  call (lineWidth 1) ;;
  call (strokeStyle "#ccc") ;;
  call beginPath ;;
  for_of (grid this) (fun row =>
    match row with
    | [] => throw
    | row0 :: _ =>
        let y := midY row0 in
        call (moveTo 0 y) ;;
        call (lineTo (width canvas) y)
    end) ;;
  match grid this with
  | [] => throw
  | grid0 :: _ =>
      for_of grid0 (fun col =>
        let x := midX col in
        call (moveTo x 0) ;;
        call (lineTo x (height canvas)))
  end ;;
  call stroke.

Definition update (canvas : Canvas) (this : VectorField)
  (mouseX mouseY : R) : Draw VectorField :=
  drawGrid canvas this ;;
  g <- for_of_mut (grid this) (fun row =>
         for_of_mut row (fun vector =>
           Vector.update canvas vector mouseX mouseY)) ;;
  ret (set_grid this g).

End VectorField.

(** ** The page: globals, the [mousemove] listener and [setup] *)

Record Globals : Type := mkGlobals {
  canvas : Canvas;
  field : VectorField
}.

(** The listener.  An exception leaves the listener; the field is then as
    it was, because [VectorField.update] can only throw in [drawGrid], before
    any vector is touched. *)
Definition mousemove (g : Globals) (clientX clientY : R)
  : list CtxCall * Globals :=
  let y := clientY in
  let x := clientX in
  let m :=
    call (clearRect 0 0 (width (canvas g)) (height (canvas g))) ;;
    VectorField.update (canvas g) (field g) x y in
  match result m with
  | Ok f => (calls m, mkGlobals (canvas g) f)
  | TypeError => (calls m, g)
  end.

(** The page after a sequence of [mousemove] events. *)
Fixpoint run (g : Globals) (events : list (R * R)) : Globals :=
  match events with
  | [] => g
  | (x, y) :: rest => run (snd (mousemove g x y)) rest
  end.

(** [setup], for a window of the given inner size. *)
Definition setup (innerWidth innerHeight : nat) : Globals :=
  let offsets := (20, 20) in
  let canvas := mkCanvas (INR innerWidth) (INR innerHeight) in
  let cols := width canvas / 28 in
  let rows := height canvas / 28 in
  let field := new_VectorField cols rows (fst offsets) (snd offsets) in
  mkGlobals canvas (VectorField.init canvas field).

(** ** The same arithmetic in IEEE binary64 *)

Module Double.

(** [Math.floor] of a Number, as an integer: [None] for [NaN] and the
    infinities, which [Math.floor] returns unchanged.  A finite double is
    [m * 2^e] up to sign, and shifting an integer to the right floors. *)
Definition floorZ (x : float) : option Z :=
  match Prim2SF x with
  | S754_zero _ => Some 0%Z
  | S754_finite s m e => Some (Z.shiftl (if s then Z.neg m else Z.pos m) e)
  | S754_infinity _ => None
  | S754_nan => None
  end.


Definition finite (x : float) : bool :=
  match Prim2SF x with
  | S754_zero _ => true
  | S754_finite _ _ _ => true
  | S754_infinity _ => false
  | S754_nan => false
  end.

(** Finite, and zero or positive. *)
Definition finite_nonneg (x : float) : bool :=
  match Prim2SF x with
  | S754_zero _ => true
  | S754_finite s _ _ => negb s
  | S754_infinity _ => false
  | S754_nan => false
  end.

Definition dist (x0 y0 x1 y1 : float) : float :=
  PrimFloat.sqrt ((x1 - x0) * (x1 - x0) + (y1 - y0) * (y1 - y0))%float.

(** The locals of [Vector.update]; [width] is [canvas.width].  The hue is an
    integer, or [None] for [NaN]: the remainder of an infinity or of [NaN]
    is [NaN]. *)
Definition update_factor (width d : float) : float :=
  (d / (width * 1.3))%float.
Definition update_hue (factor : float) : option Z :=
  option_map (fun z => js_rem z 360) (floorZ (360 * factor * 1.1)%float).
Definition update_len (factor : float) : float :=
  if (30 <? 200 * factor)%float then 30%float else (200 * factor)%float.


(** The locals [spaceX] and [spaceY] of [VectorField.init]. *)
Definition init_space (extent count : float) : option Z :=
  floorZ (extent / count)%float.

End Double.



(** ** Vocabulary of the specification *)

Definition anchor (v : Vector) : R * R := (midX v, midY v).

(** [this.grid[j][i]]: the cell in column [i] of row [j], if there is one. *)
Definition cell (this : VectorField) (i j : nat) : option Vector :=
  match nth_error (grid this) j with
  | Some row => nth_error row i
  | None => None
  end.

(** The lattice in the words of the specification: [n] anchors of a row,
    from [xOffset] in steps of [spaceX], and [m] such rows from [yOffset] in
    steps of [spaceY]. *)
Definition lattice_row (xOffset spaceX y : R) (n : nat) : list Vector :=
  map (fun i => new_Vector (xOffset + INR i * spaceX) y) (seq 0 n).

Definition lattice (xOffset yOffset spaceX spaceY : R) (n m : nat)
  : list (list Vector) :=
  map (fun j => lattice_row xOffset spaceX (yOffset + INR j * spaceY) n)
      (seq 0 m).

(** A line segment, from its first to its second point. *)
Definition Segment : Type := ((R * R) * (R * R))%type.

(** The line segments of the paths built by a sequence of calls.  [pen] is
    the current subpath, as its first point and its current point: [moveTo]
    starts a subpath, [lineTo] adds the segment from the current point (and
    starts a subpath when there is none), [closePath] adds the segment back
    to the first point, [beginPath] drops the subpath. *)
Fixpoint segments_from (pen : option ((R * R) * (R * R)))
  (l : list CtxCall) : list Segment :=
  match l with
  | [] => []
  | beginPath :: t => segments_from None t
  | moveTo x y :: t => segments_from (Some ((x, y), (x, y))) t
  | lineTo x y :: t =>
      match pen with
      | Some (p0, p) => (p, (x, y)) :: segments_from (Some (p0, (x, y))) t
      | None => segments_from (Some ((x, y), (x, y))) t
      end
  | closePath :: t =>
      match pen with
      | Some (p0, p) => (p, p0) :: segments_from (Some (p0, p0)) t
      | None => segments_from None t
      end
  | _ :: t => segments_from pen t
  end.

Definition segments (l : list CtxCall) : list Segment := segments_from None l.

(** The two calls that add one segment to the path. *)
Definition segment_calls (s : Segment) : list CtxCall :=
  let '((x0, y0), (x1, y1)) := s in [moveTo x0 y0; lineTo x1 y1].

(** The gridline of a row: across the surface at the height of the row's
    first anchor; the gridline of a cell of the first row: down the surface
    at that cell's anchor. *)
Definition row_line (canvas : Canvas) (row : list Vector) : Segment :=
  let y := midY (hd (new_Vector 0 0) row) in ((0, y), (width canvas, y)).

Definition col_line (canvas : Canvas) (col : Vector) : Segment :=
  let x := midX col in ((x, 0), (x, height canvas)).

(** Two states of a field with the same size, offsets, grid shape and
    anchors: they differ at most in the [angle] and [len] of the vectors. *)
Definition same_layout (f f' : VectorField) : Prop :=
  size f' = size f /\
  offsets f' = offsets f /\
  map (map anchor) (grid f') = map (map anchor) (grid f).

(** The vector as [Vector.update] leaves it for a pointer position. *)
Definition updated (canvas : Canvas) (mouseX mouseY : R) (v : Vector)
  : Vector :=
  match result (Vector.update canvas v mouseX mouseY) with
  | Ok v' => v'
  | TypeError => v
  end.


(** * Properties *)

(** ** The drawing monad *)

Lemma calls_bind {A B} (m : Draw A) (k : A -> Draw B) (a : A) :
  result m = Ok a -> calls (bind m k) = calls m ++ calls (k a).
Proof.
  destruct m as [l [a'|]]; simpl; intros H; [|discriminate].
  injection H as ->. unfold calls. simpl. now destruct (k a).
Qed.

Lemma result_bind {A B} (m : Draw A) (k : A -> Draw B) (a : A) :
  result m = Ok a -> result (bind m k) = result (k a).
Proof.
  destruct m as [l [a'|]]; simpl; intros H; [|discriminate].
  injection H as ->. unfold result. simpl. now destruct (k a).
Qed.

Lemma result_bind_throw {A B} (m : Draw A) (k : A -> Draw B) :
  result m = TypeError -> result (bind m k) = TypeError.
Proof.
  destruct m as [l [a'|]]; simpl; intros H; [discriminate|reflexivity].
Qed.

(** ** Numbers *)

Lemma floor_spec (x : R) : IZR (Math.floor x) <= x < IZR (Math.floor x) + 1.
Proof.
  unfold Math.floor. destruct (base_Int_part x). lra.
Qed.

Lemma floor_unique (x : R) (z : Z) : IZR z <= x < IZR z + 1 -> Math.floor x = z.
Proof.
  intros H. unfold Math.floor. symmetry. apply Int_part_spec. lra.
Qed.

Lemma floor_IZR (z : Z) : Math.floor (IZR z) = z.
Proof. apply floor_unique. lra. Qed.

Lemma floor_nonneg (x : R) : 0 <= x -> (0 <= Math.floor x)%Z.
Proof.
  intros Hx. destruct (floor_spec x) as [_ Hlt].
  assert (H : (-1 < Math.floor x)%Z) by (apply lt_IZR; lra).
  lia.
Qed.

Lemma ceil_spec (x : R) : IZR (Math.ceil x) - 1 < x <= IZR (Math.ceil x).
Proof.
  unfold Math.ceil. rewrite opp_IZR.
  destruct (base_Int_part (- x)). lra.
Qed.

Lemma ceil_unique (x : R) (z : Z) : IZR z - 1 < x <= IZR z -> Math.ceil x = z.
Proof.
  intros H. destruct (ceil_spec x) as [H1 H2].
  assert (Math.ceil x < z + 1)%Z by (apply lt_IZR; rewrite plus_IZR; lra).
  assert (z < Math.ceil x + 1)%Z by (apply lt_IZR; rewrite plus_IZR; lra).
  lia.
Qed.

(** Off the integers the ceiling is one above the floor. *)
Lemma ceil_floor_succ (x : R) :
  (forall z : Z, x <> IZR z) -> Math.ceil x = (Math.floor x + 1)%Z.
Proof.
  intros Hx. apply ceil_unique. rewrite plus_IZR.
  destruct (floor_spec x) as [H1 H2].
  destruct (Req_dec x (IZR (Math.floor x))) as [E|E]; [now apply Hx in E|lra].
Qed.

(** ** [dist] and [angleBetween] *)

Lemma dist_nonneg (x0 y0 x1 y1 : R) : 0 <= dist x0 y0 x1 y1.
Proof. apply sqrt_pos. Qed.

Lemma dist_same (x y : R) : dist x y x y = 0.
Proof.
  unfold dist, Math.sqrt.
  replace ((x - x) * (x - x) + (y - y) * (y - y)) with 0 by ring.
  apply sqrt_0.
Qed.

Lemma dist_zero_iff (x0 y0 x1 y1 : R) :
  dist x0 y0 x1 y1 = 0 <-> x1 = x0 /\ y1 = y0.
Proof.
  unfold dist, Math.sqrt. split.
  - intros H.
    assert (H0 : (x1 - x0) * (x1 - x0) + (y1 - y0) * (y1 - y0) = 0).
    { apply sqrt_eq_0; [|exact H].
      pose proof (Rle_0_sqr (x1 - x0)). pose proof (Rle_0_sqr (y1 - y0)).
      unfold Rsqr in *. lra. }
    destruct (Rplus_sqr_eq_0 (x1 - x0) (y1 - y0) H0). split; lra.
  - intros [-> ->]. apply dist_same.
Qed.

Lemma atan2_0_0 : Math.atan2 0 0 = 0.
Proof.
  unfold Math.atan2.
  repeat (destruct (Rlt_dec _ _); try lra).
Qed.

Lemma angleBetween_same (x y : R) : angleBetween x y x y = 0.
Proof.
  unfold angleBetween.
  replace (y - y) with 0 by ring. replace (x - x) with 0 by ring.
  apply atan2_0_0.
Qed.


(** ** Vector *)

Lemma drawArrow_result (this : Vector) (x y : R) (color : string) :
  result (Vector.drawArrow this x y color) = Ok tt.
Proof. reflexivity. Qed.

Lemma draw_result (this : Vector) (color : string) :
  result (Vector.draw this color) = Ok tt.
Proof. reflexivity. Qed.

(** [update] assigns [angle] and [len], draws, and never throws. *)
Lemma update_eq (canvas : Canvas) (this : Vector) (mouseX mouseY : R) :
  let d := dist (midX this) (midY this) mouseX mouseY in
  let factor := Vector.update_factor canvas d in
  let v := mkVector (midX this) (midY this)
             (Some (angleBetween (midX this) (midY this) mouseX mouseY))
             (Some (Vector.update_len factor)) in
  Vector.update canvas this mouseX mouseY
  = (calls (Vector.draw v (Vector.hsl (Vector.update_hue factor))), Ok v).
Proof. reflexivity. Qed.

Lemma update_len_Rmin (factor : R) :
  Vector.update_len factor = Rmin (200 * factor) 30.
Proof.
  unfold Vector.update_len, Rmin.
  destruct (Rgt_dec (200 * factor) 30), (Rle_dec (200 * factor) 30); lra.
Qed.

Lemma update_factor_nonneg (canvas : Canvas) (d : R) :
  0 < width canvas -> 0 <= d -> 0 <= Vector.update_factor canvas d.
Proof.
  intros Hw Hd. unfold Vector.update_factor.
  apply Rmult_le_pos; [exact Hd|].
  apply Rlt_le, Rinv_0_lt_compat. lra.
Qed.

(** C1.  For every anchor and pointer position on a canvas of positive
    width, [Vector.update] ends normally and sets [len] to
    [min (200 * factor) 30] with [factor = dist / (width * 1.3)]; that length
    lies in [[0, 30]] however far the pointer is. *)
Theorem update_len_capped
  (canvas : Canvas) (this : Vector) (mouseX mouseY : R) :
  0 < width canvas ->
  exists v : Vector,
    result (Vector.update canvas this mouseX mouseY) = Ok v /\
    let factor :=
      dist (midX this) (midY this) mouseX mouseY / (width canvas * 1.3) in
    len v = Some (Rmin (200 * factor) 30) /\
    0 <= Rmin (200 * factor) 30 <= 30.
Proof.
  intros Hw. rewrite update_eq. eexists. split; [reflexivity|].
  cbv zeta. cbn [len]. rewrite update_len_Rmin.
  split; [reflexivity|].
  pose proof (update_factor_nonneg canvas _ Hw
                (dist_nonneg (midX this) (midY this) mouseX mouseY)) as Hf.
  unfold Vector.update_factor in Hf.
  unfold Rmin. destruct (Rle_dec _ _); lra.
Qed.

Lemma update_len_capped_witness :
  0 < width (mkCanvas 1000 600) /\
  exists v : Vector,
    result (Vector.update (mkCanvas 1000 600) (new_Vector 0 0) 100 0) = Ok v /\
    let factor := dist 0 0 100 0 / (1000 * 1.3) in
    len v = Some (Rmin (200 * factor) 30) /\
    0 <= Rmin (200 * factor) 30 <= 30.
Proof.
  split; [simpl; lra|].
  apply (update_len_capped (mkCanvas 1000 600) (new_Vector 0 0) 100 0).
  simpl; lra.
Defined.

Lemma floorZ_nonneg (p : float) :
  Double.finite_nonneg p = true ->
  exists z : Z, Double.floorZ p = Some z /\ (0 <= z)%Z.
Proof.
  unfold Double.finite_nonneg, Double.floorZ.
  destruct (Prim2SF p) as [s|s| |s m e]; try discriminate.
  - intros _. exists 0%Z. split; [reflexivity|lia].
  - destruct s; [discriminate|]. intros _. eexists. split; [reflexivity|].
    apply Z.shiftl_nonneg. lia.
Qed.

Lemma floorZ_not_finite (p : float) :
  Double.finite p = false -> Double.floorZ p = None.
Proof.
  unfold Double.finite, Double.floorZ.
  now destruct (Prim2SF p) as [s|s| |s m e].
Qed.

(** The hue in doubles: the residue of the floor of the rounded product
    when that product is finite and not negative, [NaN] when it is not
    finite. *)
Lemma update_hue_double (factor : float) :
  let p := (360 * factor * 1.1)%float in
  (Double.finite_nonneg p = true ->
   exists z : Z,
     Double.floorZ p = Some z /\
     Double.update_hue factor = Some (z mod 360)%Z /\
     (0 <= z mod 360 < 360)%Z) /\
  (Double.finite p = false -> Double.update_hue factor = None).
Proof.
  cbv zeta. split.
  - intros Hp. destruct (floorZ_nonneg _ Hp) as [z [Hz Hz0]].
    exists z. split; [exact Hz|]. split.
    + unfold Double.update_hue. rewrite Hz. cbn [option_map].
      unfold js_rem. now rewrite Z.rem_mod_nonneg by lia.
    + apply Z.mod_pos_bound. lia.
  - intros Hp. unfold Double.update_hue.
    now rewrite (floorZ_not_finite _ Hp).
Qed.

(** C2, as stated, fails.  For the non-negative factor 1e306 the product
    [360 * factor * 1.1] overflows to [Infinity] and the hue is [NaN], not a
    number in [[0, 360)].  And the hue is the floor of the rounded product, not
    of the exact one: on a surface 792 wide, for the anchor (20, 20) and the
    pointer (85, 20), the program draws with hue 24, while the exact product
    is 25. *)
Lemma update_hue_not_always_in_range :
  Double.finite_nonneg 1e306 = true /\
  Double.update_hue 1e306 = None /\
  Double.update_hue (Double.update_factor 792 (Double.dist 20 20 85 20))
  = Some 24%Z /\
  360 * (dist 20 20 85 20 / (792 * 1.3)) * 1.1 = 25.
Proof.
  split; [vm_compute; reflexivity|].
  split; [vm_compute; reflexivity|].
  split; [vm_compute; reflexivity|].
  unfold dist, Math.sqrt.
  replace ((85 - 20) * (85 - 20) + (20 - 20) * (20 - 20)) with (65 * 65)
    by ring.
  rewrite sqrt_square by lra. lra.
Qed.

(** C2, amended.  For every anchor, pointer position and surface width,
    [Vector.update] computes the hue in doubles as the floor of the Number
    [360 * factor * 1.1], modulo 360.  Whenever that Number is finite and not
    negative the hue is an integer in [[0, 360)]; when it is not finite the
    hue is [NaN].  The same holds of the hue computed from any factor. *)
Theorem update_hue_wraps_double
  (midX midY mouseX mouseY width : float) :
  let factor :=
    Double.update_factor width (Double.dist midX midY mouseX mouseY) in
  let p := (360 * factor * 1.1)%float in
  (Double.finite_nonneg p = true ->
   exists z : Z,
     Double.floorZ p = Some z /\
     Double.update_hue factor = Some (z mod 360)%Z /\
     (0 <= z mod 360 < 360)%Z) /\
  (Double.finite p = false -> Double.update_hue factor = None) /\
  (forall f : float,
     let q := (360 * f * 1.1)%float in
     (Double.finite_nonneg q = true ->
      exists z : Z,
        Double.floorZ q = Some z /\
        Double.update_hue f = Some (z mod 360)%Z /\
        (0 <= z mod 360 < 360)%Z) /\
     (Double.finite q = false -> Double.update_hue f = None)).
Proof.
  cbv zeta.
  destruct (update_hue_double
              (Double.update_factor width
                 (Double.dist midX midY mouseX mouseY))) as [H1 H2].
  split; [exact H1|]. split; [exact H2|].
  intros f. apply update_hue_double.
Qed.

Lemma update_hue_wraps_double_witness :
  let factor := Double.update_factor 1000 (Double.dist 0 0 100 0) in
  let p := (360 * factor * 1.1)%float in
  Double.finite_nonneg p = true /\
  Double.update_hue factor = Some 30%Z /\
  exists z : Z,
    Double.floorZ p = Some z /\
    Double.update_hue factor = Some (z mod 360)%Z /\
    (0 <= z mod 360 < 360)%Z.
Proof.
  cbv zeta.
  assert (Hp : Double.finite_nonneg
                 (360 * Double.update_factor 1000 (Double.dist 0 0 100 0)
                  * 1.1)%float = true) by (vm_compute; reflexivity).
  split; [exact Hp|]. split; [vm_compute; reflexivity|].
  exact (proj1 (update_hue_wraps_double 0 0 100 0 1000) Hp).
Defined.

Lemma update_hue_0 : Vector.update_hue 0 = 0%Z.
Proof.
  unfold Vector.update_hue, js_rem.
  replace (360 * 0 * 1.1) with (IZR 0) by lra.
  now rewrite floor_IZR.
Qed.

Lemma update_len_0 : Vector.update_len 0 = 0.
Proof.
  unfold Vector.update_len. destruct (Rgt_dec (200 * 0) 30); lra.
Qed.

(** C6.  When the pointer is exactly on the anchor (canvas of positive
    width), the angle and the distance are [0], and [Vector.update] ends
    normally with [angle = 0] and [len = 0], drawing in the colour of hue
    [0]. *)
Theorem update_at_anchor (canvas : Canvas) (this : Vector) :
  0 < width canvas ->
  angleBetween (midX this) (midY this) (midX this) (midY this) = 0 /\
  dist (midX this) (midY this) (midX this) (midY this) = 0 /\
  exists v : Vector,
    Vector.update canvas this (midX this) (midY this)
    = (calls (Vector.draw v "hsl(0, 70%, 35%)"), Ok v) /\
    angle v = Some 0 /\ len v = Some 0 /\
    midX v = midX this /\ midY v = midY this.
Proof.
  intros Hw.
  split; [apply angleBetween_same|].
  split; [apply dist_same|].
  rewrite update_eq. cbv zeta.
  rewrite dist_same, angleBetween_same.
  replace (Vector.update_factor canvas 0) with 0
    by (unfold Vector.update_factor; field; lra).
  rewrite update_hue_0, update_len_0.
  eexists. split; [reflexivity|]. simpl. repeat split; reflexivity.
Qed.

Lemma update_at_anchor_witness :
  0 < width (mkCanvas 1000 600) /\
  angleBetween 100 100 100 100 = 0 /\
  dist 100 100 100 100 = 0 /\
  exists v : Vector,
    Vector.update (mkCanvas 1000 600) (new_Vector 100 100) 100 100
    = (calls (Vector.draw v "hsl(0, 70%, 35%)"), Ok v) /\
    angle v = Some 0 /\ len v = Some 0 /\
    midX v = 100 /\ midY v = 100.
Proof.
  split; [simpl; lra|].
  apply (update_at_anchor (mkCanvas 1000 600) (new_Vector 100 100)).
  simpl; lra.
Defined.

(** The third scenario of the specification: anchor (0, 0), pointer
    (100, 0), surface width 1000. *)
Example update_scenario :
  dist 0 0 100 0 = 100 /\
  angleBetween 0 0 100 0 = 0 /\
  Vector.update_factor (mkCanvas 1000 600) 100 = 100 / 1300 /\
  Vector.update_hue (100 / 1300) = 30%Z /\
  Vector.update_len (100 / 1300) = 200 / 13 /\
  Vector.hsl 30 = "hsl(30, 70%, 35%)"%string.
Proof.
  split; [|split; [|split; [|split; [|split]]]].
  - unfold dist, Math.sqrt.
    replace ((100 - 0) * (100 - 0) + (0 - 0) * (0 - 0)) with (100 * 100)
      by ring.
    apply sqrt_square. lra.
  - unfold angleBetween, Math.atan2.
    destruct (Rlt_dec 0 (100 - 0)); [|lra].
    replace ((0 - 0) / (100 - 0)) with 0 by lra. apply atan_0.
  - unfold Vector.update_factor. cbn [width]. lra.
  - unfold Vector.update_hue, js_rem.
    replace (Math.floor (360 * (100 / 1300) * 1.1)) with 30%Z
      by (symmetry; apply floor_unique; lra).
    reflexivity.
  - unfold Vector.update_len.
    destruct (Rgt_dec (200 * (100 / 1300)) 30); lra.
  - reflexivity.
Qed.









(** ** VectorField: the lattice built by [init] *)

(** The test [i < bound] of a counting loop, on integers. *)
Lemma for_loop_test (bound : R) (i : nat) :
  INR i < bound <-> (Z.of_nat i < Math.ceil bound)%Z.
Proof.
  destruct (ceil_spec bound) as [H1 H2]. rewrite INR_IZR_INZ. split.
  - intros H. apply lt_IZR. lra.
  - intros H. assert (Z.of_nat i <= Math.ceil bound - 1)%Z by lia.
    apply IZR_le in H0. rewrite minus_IZR in H0. lra.
Qed.

Lemma lattice_row_length (xOffset spaceX y : R) (n : nat) :
  length (lattice_row xOffset spaceX y n) = n.
Proof. unfold lattice_row. now rewrite length_map, length_seq. Qed.

Lemma lattice_length (xOffset yOffset spaceX spaceY : R) (n m : nat) :
  length (lattice xOffset yOffset spaceX spaceY n m) = m.
Proof. unfold lattice. now rewrite length_map, length_seq. Qed.

Lemma lattice_row_S (xOffset spaceX y : R) (n : nat) :
  lattice_row xOffset spaceX y (S n)
  = new_Vector xOffset y :: lattice_row (xOffset + spaceX) spaceX y n.
Proof.
  unfold lattice_row. cbn [seq map]. f_equal.
  - f_equal. simpl. ring.
  - rewrite <- seq_shift, map_map. apply map_ext. intros k.
    rewrite S_INR. f_equal. ring.
Qed.

Lemma lattice_S (xOffset yOffset spaceX spaceY : R) (n m : nat) :
  lattice xOffset yOffset spaceX spaceY n (S m)
  = lattice_row xOffset spaceX yOffset n
    :: lattice xOffset (yOffset + spaceY) spaceX spaceY n m.
Proof.
  unfold lattice. cbn [seq map]. f_equal.
  - f_equal. simpl. ring.
  - rewrite <- seq_shift, map_map. apply map_ext. intros k.
    rewrite S_INR. f_equal. ring.
Qed.

(** The inner loop appends one lattice row, as long as the loop count
    says. *)
Lemma init_row_eq (this : VectorField) (spaceX y : R) :
  forall (n i : nat) (x : R) (row : list Vector),
    n = Z.to_nat (Math.ceil (fst (size this)) - Z.of_nat i) ->
    VectorField.init_row this spaceX y i x row
    = (x + INR n * spaceX, row ++ lattice_row x spaceX y n).
Proof.
  induction n as [|n IH]; intros i x row Hn.
  - simp init_row.
    destruct (Rlt_dec (INR i) (fst (size this))) as [Hlt|Hge];
      cbn [VectorField.init_row_unfold_clause_1].
    + apply for_loop_test in Hlt. lia.
    + unfold lattice_row. cbn [seq map INR]. rewrite app_nil_r.
      f_equal. ring.
  - simp init_row.
    destruct (Rlt_dec (INR i) (fst (size this))) as [Hlt|Hge];
      cbn [VectorField.init_row_unfold_clause_1].
    + rewrite (IH (S i)) by lia.
      rewrite lattice_row_S, <- app_assoc. cbn [app].
      f_equal. rewrite S_INR. ring.
    + exfalso. apply Hge, for_loop_test. lia.
Qed.

Lemma grid_push_size (this : VectorField) (row : list Vector) :
  size (grid_push this row) = size this.
Proof. reflexivity. Qed.

(** The outer loop appends the lattice rows. *)
Lemma init_rows_eq (spaceX spaceY : R) :
  forall (m j : nat) (y : R) (this : VectorField),
    m = Z.to_nat (Math.ceil (snd (size this)) - Z.of_nat j) ->
    VectorField.init_rows spaceX spaceY j (fst (offsets this)) y this
    = set_grid this
        (grid this
         ++ lattice (fst (offsets this)) y spaceX spaceY
              (Z.to_nat (Math.ceil (fst (size this)))) m).
Proof.
  induction m as [|m IH]; intros j y this Hm.
  - simp init_rows.
    destruct (Rlt_dec (INR j) (snd (size this))) as [Hlt|Hge];
      cbn [VectorField.init_rows_unfold_clause_1].
    + apply for_loop_test in Hlt. lia.
    + rewrite app_nil_r. now destruct this.
  - simp init_rows.
    destruct (Rlt_dec (INR j) (snd (size this))) as [Hlt|Hge];
      cbn [VectorField.init_rows_unfold_clause_1].
    + rewrite (init_row_eq this spaceX y _ 0%nat _ [] eq_refl).
      cbn [snd app].
      change (fst (offsets this))
        with (fst (offsets (grid_push this
          (lattice_row (fst (offsets this)) spaceX y
             (Z.to_nat (Math.ceil (fst (size this)) - Z.of_nat 0)))))) at 1.
      rewrite (IH (S j)) by (rewrite grid_push_size; lia).
      cbn [grid_push size offsets grid set_grid fst snd].
      rewrite lattice_S, <- app_assoc. cbn [app].
      now rewrite Z.sub_0_r.
    + exfalso. apply Hge, for_loop_test. lia.
Qed.

(** [init] appends the lattice to whatever the grid holds. *)
Lemma init_eq (canvas : Canvas) (this : VectorField) :
  VectorField.init canvas this
  = set_grid this
      (grid this
       ++ lattice (fst (offsets this)) (snd (offsets this))
            (VectorField.init_spaceX canvas this)
            (VectorField.init_spaceY canvas this)
            (Z.to_nat (Math.ceil (fst (size this))))
            (Z.to_nat (Math.ceil (snd (size this))))).
Proof.
  unfold VectorField.init.
  destruct (offsets this) as [x y] eqn:Eo. cbn [fst snd].
  replace x with (fst (offsets this)) at 1 by now rewrite Eo.
  rewrite (init_rows_eq _ _ _ 0%nat y this eq_refl).
  now rewrite Eo, Z.sub_0_r.
Qed.

(** The cells of a lattice. *)
Lemma nth_error_map_seq {A} (f : nat -> A) (n k : nat) :
  nth_error (map f (seq 0 n)) k = if (k <? n)%nat then Some (f k) else None.
Proof.
  rewrite nth_error_map, nth_error_seq.
  now destruct (k <? n)%nat.
Qed.

Lemma lattice_cell (this : VectorField)
  (xOffset yOffset spaceX spaceY : R) (n m i j : nat) :
  grid this = lattice xOffset yOffset spaceX spaceY n m ->
  cell this i j
  = if ((i <? n) && (j <? m))%nat%bool
    then Some (new_Vector (xOffset + INR i * spaceX)
                          (yOffset + INR j * spaceY))
    else None.
Proof.
  intros Hg. unfold cell. rewrite Hg. unfold lattice.
  rewrite nth_error_map_seq.
  destruct (j <? m)%nat; [|now rewrite andb_false_r].
  unfold lattice_row. rewrite nth_error_map_seq, andb_true_r.
  reflexivity.
Qed.

(** A freshly constructed field holds exactly the lattice after [init]. *)
Lemma init_new_grid (canvas : Canvas) (cols rows xOffset yOffset : R) :
  grid (VectorField.init canvas (new_VectorField cols rows xOffset yOffset))
  = lattice xOffset yOffset
      (IZR (Math.floor (width canvas / cols)))
      (IZR (Math.floor (height canvas / rows)))
      (Z.to_nat (Math.ceil cols)) (Z.to_nat (Math.ceil rows)).
Proof. rewrite init_eq. reflexivity. Qed.

Lemma ceil_IZR (z : Z) : Math.ceil (IZR z) = z.
Proof. apply ceil_unique. lra. Qed.




(** The spacing in doubles for two window sizes where it differs from the
    floor of the exact quotient (27 and 28), and for a quotient far from a
    whole number, where it does not. *)
Example init_space_setup :
  Double.init_space 1440 (1440 / 28) = Some 28%Z /\
  Double.init_space 900 (900 / 28) = Some 27%Z /\
  Double.init_space 280 1.5 = Some 186%Z.
Proof. vm_compute. repeat split. Qed.



Lemma ceil_nonneg (x : R) : 0 <= x -> (0 <= Math.ceil x)%Z.
Proof.
  intros Hx. destruct (ceil_spec x) as [_ H]. apply le_IZR. lra.
Qed.

(** The shape of the grid of a fresh field after [init], for sizes that are
    not negative. *)
Lemma init_new_shape (canvas : Canvas) (cols rows xOffset yOffset : R) :
  0 <= cols -> 0 <= rows ->
  let f :=
    VectorField.init canvas (new_VectorField cols rows xOffset yOffset) in
  Z.of_nat (length (grid f)) = Math.ceil rows /\
  Forall (fun row => Z.of_nat (length row) = Math.ceil cols) (grid f).
Proof.
  intros Hc Hr. cbv zeta. rewrite init_new_grid. split.
  - rewrite lattice_length. apply Z2Nat.id, ceil_nonneg, Hr.
  - unfold lattice. apply Forall_map, Forall_forall. intros j _.
    rewrite lattice_row_length. apply Z2Nat.id, ceil_nonneg, Hc.
Qed.

(** On the page built by [setup] a vector exists only when the surface
    has a positive width, so [Vector.update] never divides by zero there. *)
Lemma setup_vector_width (innerWidth innerHeight : nat)
  (row : list Vector) (v : Vector) :
  In row (grid (field (setup innerWidth innerHeight))) ->
  In v row ->
  0 < width (canvas (setup innerWidth innerHeight)).
Proof.
  unfold setup. cbn [canvas field width height fst snd].
  rewrite init_new_grid. unfold lattice. intros Hrow Hv.
  apply in_map_iff in Hrow. destruct Hrow as [j [<- _]].
  destruct innerWidth as [|w].
  - exfalso. cbn [INR] in Hv.
    replace (0 / 28) with (IZR 0) in Hv by lra.
    rewrite ceil_IZR in Hv. exact Hv.
  - apply lt_0_INR. lia.
Qed.

(** C10.  [setup] passes [width / 28] and [height / 28] to the constructor
    unrounded.  When the [cols] and [rows] of a fresh field are not integers
    (and not negative), [init] builds [ceil rows] rows of [ceil cols] vectors
    each, one more than the integer part of [rows] and of [cols]. *)
Theorem init_fractional_size
  (surface : Canvas) (cols rows xOffset yOffset : R) :
  0 <= cols -> 0 <= rows ->
  (forall z : Z, cols <> IZR z) -> (forall z : Z, rows <> IZR z) ->
  let f :=
    VectorField.init surface (new_VectorField cols rows xOffset yOffset) in
  Z.of_nat (length (grid f)) = Math.ceil rows /\
  Forall (fun row => Z.of_nat (length row) = Math.ceil cols) (grid f) /\
  Math.ceil rows = (Math.floor rows + 1)%Z /\
  Math.ceil cols = (Math.floor cols + 1)%Z /\
  (forall innerWidth innerHeight : nat,
     let g := setup innerWidth innerHeight in
     canvas g = mkCanvas (INR innerWidth) (INR innerHeight) /\
     field g
     = VectorField.init (canvas g)
         (new_VectorField (INR innerWidth / 28) (INR innerHeight / 28)
            20 20)).
Proof.
  intros Hc Hr Hci Hri. cbv zeta.
  destruct (init_new_shape surface cols rows xOffset yOffset Hc Hr) as [H1 H2].
  split; [exact H1|]. split; [exact H2|].
  split; [now apply ceil_floor_succ|].
  split; [now apply ceil_floor_succ|].
  intros w h. split; reflexivity.
Qed.

Lemma not_integer_quotient (a b : Z) :
  (0 < b)%Z -> (a mod b <> 0)%Z -> forall z : Z, IZR a / IZR b <> IZR z.
Proof.
  intros Hb Hm z Hz.
  assert (Hb' : IZR b <> 0) by (apply not_0_IZR; lia).
  assert (H : IZR a = IZR (z * b)).
  { rewrite mult_IZR, <- Hz. field. exact Hb'. }
  apply eq_IZR in H. subst a. rewrite Z.mod_mul in Hm by lia. now apply Hm.
Qed.

Lemma init_fractional_size_witness :
  0 <= 1000 / 28 /\ 0 <= 600 / 28 /\
  (forall z : Z, 1000 / 28 <> IZR z) /\ (forall z : Z, 600 / 28 <> IZR z) /\
  let f :=
    VectorField.init (mkCanvas 1000 600)
      (new_VectorField (1000 / 28) (600 / 28) 20 20) in
  Z.of_nat (length (grid f)) = Math.ceil (600 / 28) /\
  Forall (fun row => Z.of_nat (length row) = Math.ceil (1000 / 28)) (grid f) /\
  Math.ceil (600 / 28) = (Math.floor (600 / 28) + 1)%Z /\
  Math.ceil (1000 / 28) = (Math.floor (1000 / 28) + 1)%Z /\
  (forall innerWidth innerHeight : nat,
     let g := setup innerWidth innerHeight in
     canvas g = mkCanvas (INR innerWidth) (INR innerHeight) /\
     field g
     = VectorField.init (canvas g)
         (new_VectorField (INR innerWidth / 28) (INR innerHeight / 28)
            20 20)).
Proof.
  assert (H1 : 0 <= 1000 / 28) by lra.
  assert (H2 : 0 <= 600 / 28) by lra.
  assert (H3 : forall z : Z, 1000 / 28 <> IZR z).
  { apply (not_integer_quotient 1000 28); [lia|]. vm_compute. discriminate. }
  assert (H4 : forall z : Z, 600 / 28 <> IZR z).
  { apply (not_integer_quotient 600 28); [lia|]. vm_compute. discriminate. }
  split; [exact H1|]. split; [exact H2|].
  split; [exact H3|]. split; [exact H4|].
  exact (init_fractional_size (mkCanvas 1000 600) (1000 / 28) (600 / 28)
           20 20 H1 H2 H3 H4).
Defined.

(** The scenario of the witness, in numbers: 22 rows of 36 vectors. *)
Example init_1000_600 :
  Math.ceil (1000 / 28) = 36%Z /\ Math.ceil (600 / 28) = 22%Z.
Proof. split; apply ceil_unique; lra. Qed.

(** ** Running [init] again *)

Lemma init_size (canvas : Canvas) (this : VectorField) :
  size (VectorField.init canvas this) = size this.
Proof. now rewrite init_eq. Qed.

Lemma init_offsets (canvas : Canvas) (this : VectorField) :
  offsets (VectorField.init canvas this) = offsets this.
Proof. now rewrite init_eq. Qed.

(** The rows a run of [init] appends depend on the size, the offsets and
    the surface only. *)
Lemma init_appends (canvas : Canvas) (this : VectorField) :
  grid (VectorField.init canvas this)
  = grid this
    ++ grid (VectorField.init canvas
               (mkVectorField (size this) (offsets this) [])).
Proof. rewrite !init_eq. reflexivity. Qed.

Lemma app_self_eq {A} (l : list A) : l ++ l = l <-> l = [].
Proof.
  split.
  - intros H. apply (f_equal (@length A)) in H. rewrite length_app in H.
    destruct l; [reflexivity|simpl in H; lia].
  - intros ->. reflexivity.
Qed.

(** C4, as stated, fails: on the 280x280 surface the field with 10 columns
    and 10 rows at offset (20, 20) has 10 rows after one run of [init] and 20
    after a second run. *)
Lemma init_twice_not_idempotent :
  let surface := mkCanvas 280 280 in
  let f1 := VectorField.init surface (new_VectorField 10 10 20 20) in
  let f2 := VectorField.init surface f1 in
  length (grid f1) = 10%nat /\
  length (grid f2) = 20%nat /\
  grid f2 <> grid f1.
Proof.
  cbv zeta.
  assert (H1 : length (grid (VectorField.init (mkCanvas 280 280)
                               (new_VectorField 10 10 20 20))) = 10%nat).
  { rewrite init_new_grid, lattice_length.
    now rewrite (ceil_IZR 10). }
  assert (H2 : length (grid (VectorField.init (mkCanvas 280 280)
                   (VectorField.init (mkCanvas 280 280)
                      (new_VectorField 10 10 20 20)))) = 20%nat).
  { rewrite init_appends, length_app, init_size, init_offsets.
    change (mkVectorField _ _ []) with (new_VectorField 10 10 20 20).
    now rewrite H1. }
  split; [exact H1|]. split; [exact H2|].
  intros E. rewrite E in H2. rewrite H1 in H2. discriminate.
Qed.

(** C4, amended.  [init] does not empty the grid: on a field produced by
    construction and one run of [init], a second run with the same inputs
    keeps the rows of the first run and appends an identical copy of them,
    so the grid has twice the rows, and size and offsets are unchanged.  The
    grid is the same after the second run only when the first run built no
    row. *)
Theorem init_twice_appends
  (canvas : Canvas) (cols rows xOffset yOffset : R) :
  let f1 :=
    VectorField.init canvas (new_VectorField cols rows xOffset yOffset) in
  let f2 := VectorField.init canvas f1 in
  grid f2 = grid f1 ++ grid f1 /\
  length (grid f2) = (2 * length (grid f1))%nat /\
  size f2 = size f1 /\
  offsets f2 = offsets f1 /\
  (grid f2 = grid f1 <-> grid f1 = []).
Proof.
  cbv zeta.
  set (f1 := VectorField.init canvas
               (new_VectorField cols rows xOffset yOffset)).
  assert (H : grid (VectorField.init canvas f1) = grid f1 ++ grid f1).
  { rewrite init_appends. f_equal. unfold f1.
    now rewrite init_size, init_offsets. }
  split; [exact H|].
  split; [rewrite H, length_app; lia|].
  split; [apply init_size|].
  split; [apply init_offsets|].
  rewrite H. apply app_self_eq.
Qed.

(** C9.  [init] is deterministic: the rows it appends are the same for any
    two fields with the same size and offsets on surfaces of the same width
    and height, whatever the fields held before; on two fields constructed
    with the same arguments every cell of the two grids is the same. *)
Theorem init_deterministic
  (canvas1 canvas2 : Canvas) (this1 this2 : VectorField) :
  size this1 = size this2 ->
  offsets this1 = offsets this2 ->
  width canvas1 = width canvas2 ->
  height canvas1 = height canvas2 ->
  (exists appended : list (list Vector),
     grid (VectorField.init canvas1 this1) = grid this1 ++ appended /\
     grid (VectorField.init canvas2 this2) = grid this2 ++ appended) /\
  (grid this1 = [] -> grid this2 = [] ->
   forall i j : nat,
     cell (VectorField.init canvas1 this1) i j
     = cell (VectorField.init canvas2 this2) i j).
Proof.
  intros Hs Ho Hw Hh.
  assert (E : grid (VectorField.init canvas1
                      (mkVectorField (size this1) (offsets this1) []))
              = grid (VectorField.init canvas2
                        (mkVectorField (size this2) (offsets this2) []))).
  { rewrite !init_eq.
    unfold VectorField.init_spaceX, VectorField.init_spaceY.
    cbn [size offsets grid set_grid]. now rewrite Hs, Ho, Hw, Hh. }
  split.
  - eexists. split; [apply init_appends|].
    rewrite E. apply init_appends.
  - intros G1 G2 i j. unfold cell.
    rewrite (init_appends canvas1), (init_appends canvas2), G1, G2, E.
    reflexivity.
Qed.

Lemma init_deterministic_witness :
  let surface := mkCanvas 280 280 in
  let this1 := new_VectorField 10 10 20 20 in
  let this2 := mkVectorField (10, 10) (20, 20) [[new_Vector 0 0]] in
  size this1 = size this2 /\
  offsets this1 = offsets this2 /\
  width surface = width surface /\
  height surface = height surface /\
  (exists appended : list (list Vector),
     grid (VectorField.init surface this1) = grid this1 ++ appended /\
     grid (VectorField.init surface this2) = grid this2 ++ appended) /\
  (grid this1 = [] -> grid this2 = [] ->
   forall i j : nat,
     cell (VectorField.init surface this1) i j
     = cell (VectorField.init surface this2) i j).
Proof.
  cbv zeta.
  split; [reflexivity|]. split; [reflexivity|].
  split; [reflexivity|]. split; [reflexivity|].
  exact (init_deterministic (mkCanvas 280 280) (mkCanvas 280 280)
           (new_VectorField 10 10 20 20)
           (mkVectorField (10, 10) (20, 20) [[new_Vector 0 0]])
           eq_refl eq_refl eq_refl eq_refl).
Defined.

(** ** What [update] leaves alone *)

Lemma update_anchor (cv : Canvas) (v : Vector) (mouseX mouseY : R) :
  exists v' : Vector,
    result (Vector.update cv v mouseX mouseY) = Ok v' /\
    anchor v' = anchor v.
Proof. rewrite update_eq. eexists. split; reflexivity. Qed.

(** A loop whose body ends normally and keeps a key of each element ends
    normally and keeps the keys. *)
Lemma for_of_mut_key {A K} (key : A -> K) (body : A -> Draw A) :
  (forall x, exists x', result (body x) = Ok x' /\ key x' = key x) ->
  forall l, exists l',
    result (for_of_mut l body) = Ok l' /\ map key l' = map key l.
Proof.
  intros Hbody. induction l as [|x t [t' [Ht Hk]]].
  - exists []. split; reflexivity.
  - destruct (Hbody x) as [x' [Hx Hkx]].
    exists (x' :: t'). split.
    + cbn [for_of_mut].
      rewrite (result_bind _ _ _ Hx), (result_bind _ _ _ Ht). reflexivity.
    + cbn [map]. now rewrite Hkx, Hk.
Qed.

Lemma same_layout_refl (f : VectorField) : same_layout f f.
Proof. repeat split. Qed.

Lemma same_layout_trans (f1 f2 f3 : VectorField) :
  same_layout f1 f2 -> same_layout f2 f3 -> same_layout f1 f3.
Proof.
  intros (S1 & O1 & G1) (S2 & O2 & G2).
  repeat split; congruence.
Qed.

Lemma same_layout_shape (f f' : VectorField) :
  same_layout f f' ->
  length (grid f') = length (grid f) /\
  map (@length Vector) (grid f') = map (@length Vector) (grid f).
Proof.
  intros (_ & _ & G).
  assert (H : map (@length Vector) (grid f')
              = map (@length Vector) (grid f)).
  { apply (f_equal (map (@length (R * R)))) in G.
    rewrite !map_map in G.
    erewrite (map_ext _ (@length Vector)) in G
      by (intros; apply length_map).
    erewrite (map_ext (fun x => length (map anchor x))) in G
      by (intros; apply length_map).
    exact G. }
  split; [|exact H].
  apply (f_equal (@length nat)) in H. now rewrite !length_map in H.
Qed.

(** [VectorField.update] either throws in [drawGrid] or ends with a field
    of the same layout. *)
Lemma field_update_layout (cv : Canvas) (f : VectorField) (mouseX mouseY : R) :
  match result (VectorField.update cv f mouseX mouseY) with
  | Ok f' => same_layout f f'
  | TypeError => result (VectorField.drawGrid cv f) = TypeError
  end.
Proof.
  unfold VectorField.update.
  destruct (result (VectorField.drawGrid cv f)) as [[]|] eqn:Hd.
  - rewrite (result_bind _ _ _ Hd).
    destruct (for_of_mut_key (map anchor)
                (fun row => for_of_mut row (fun vector =>
                   Vector.update cv vector mouseX mouseY))
                (for_of_mut_key anchor _
                   (fun v => update_anchor cv v mouseX mouseY))
                (grid f)) as [g' [Hg Hk]].
    rewrite (result_bind _ _ _ Hg). cbn [result ret snd].
    repeat split. exact Hk.
  - now rewrite (result_bind_throw _ _ Hd).
Qed.

Lemma mousemove_layout (g : Globals) (x y : R) :
  canvas (snd (mousemove g x y)) = canvas g /\
  same_layout (field g) (field (snd (mousemove g x y))).
Proof.
  unfold mousemove.
  rewrite (result_bind (call _) _ tt eq_refl).
  pose proof (field_update_layout (canvas g) (field g) x y) as H.
  destruct (result (VectorField.update (canvas g) (field g) x y)) as [f'|].
  - split; [reflexivity|exact H].
  - split; [reflexivity|apply same_layout_refl].
Qed.

Lemma run_layout (events : list (R * R)) :
  forall g : Globals,
    canvas (run g events) = canvas g /\
    same_layout (field g) (field (run g events)).
Proof.
  induction events as [|[x y] rest IH]; intros g.
  - split; [reflexivity|apply same_layout_refl].
  - cbn [run]. destruct (IH (snd (mousemove g x y))) as [Hc Hl].
    destruct (mousemove_layout g x y) as [Hc' Hl'].
    split; [congruence|].
    eapply same_layout_trans; eassumption.
Qed.

(** C5.  Whatever pointer events follow initialisation, the page keeps its
    surface, and the field keeps its size, its offsets, the number of rows,
    the length of each row and the anchor of every vector;
    [Vector.update] ends with a vector at the same anchor, and
    [VectorField.update], when it ends, with a field of the same layout: only
    [angle] and [len] change. *)
Theorem anchors_immutable (g : Globals) (events : list (R * R)) :
  let g' := run g events in
  canvas g' = canvas g /\
  size (field g') = size (field g) /\
  offsets (field g') = offsets (field g) /\
  length (grid (field g')) = length (grid (field g)) /\
  map (@length Vector) (grid (field g'))
  = map (@length Vector) (grid (field g)) /\
  map (map anchor) (grid (field g')) = map (map anchor) (grid (field g)) /\
  (forall (cv : Canvas) (v : Vector) (mouseX mouseY : R),
     exists v' : Vector,
       result (Vector.update cv v mouseX mouseY) = Ok v' /\
       midX v' = midX v /\ midY v' = midY v) /\
  (forall (cv : Canvas) (f : VectorField) (mouseX mouseY : R),
     match result (VectorField.update cv f mouseX mouseY) with
     | Ok f' => same_layout f f'
     | TypeError => True
     end).
Proof.
  cbv zeta. destruct (run_layout events g) as [Hc Hl].
  destruct (same_layout_shape _ _ Hl) as [Hn Hs].
  destruct Hl as (Hsz & Ho & Hg).
  repeat (split; [assumption|]).
  split.
  - intros cv v mouseX mouseY.
    destruct (update_anchor cv v mouseX mouseY) as [v' [Hr Ha]].
    exists v'. split; [exact Hr|]. now injection Ha.
  - intros cv f mouseX mouseY.
    pose proof (field_update_layout cv f mouseX mouseY) as H.
    now destruct (result (VectorField.update cv f mouseX mouseY)).
Qed.

(** ** The gridlines *)

Lemma for_of_calls {A} (body : A -> Draw unit) (f : A -> list CtxCall) :
  forall l : list A,
    (forall x, In x l -> body x = (f x, Ok tt)) ->
    for_of l body = (flat_map f l, Ok tt).
Proof.
  induction l as [|x t IH]; intros H.
  - reflexivity.
  - cbn [for_of flat_map].
    rewrite (H x (or_introl eq_refl)), IH
      by (intros; apply H; now right).
    reflexivity.
Qed.

(** The segments of a run of [moveTo]/[lineTo] pairs, whatever the path
    held before, when what follows does not depend on the current point. *)
Lemma segments_from_pairs (rest : list CtxCall) :
  (forall pen, segments_from pen rest = segments_from None rest) ->
  forall (l : list Segment) pen,
    segments_from pen (flat_map segment_calls l ++ rest)
    = l ++ segments_from None rest.
Proof.
  intros Hrest. induction l as [|[[x0 y0] [x1 y1]] t IH]; intros pen.
  - apply Hrest.
  - cbn [flat_map segment_calls app segments_from]. now rewrite IH.
Qed.

Lemma segments_from_pairs_stroke (l : list Segment) pen :
  segments_from pen (flat_map segment_calls l ++ [stroke]) = l.
Proof.
  rewrite segments_from_pairs by reflexivity. apply app_nil_r.
Qed.

(** On a grid with a first row and no empty row, [drawGrid] ends normally
    and its path holds one gridline per row, then one per cell of the first
    row. *)
Lemma drawGrid_eq (cv : Canvas) (this : VectorField) :
  grid this <> [] ->
  Forall (fun row => row <> []) (grid this) ->
  VectorField.drawGrid cv this
  = ([lineWidth 1; strokeStyle "#ccc"; beginPath]
     ++ flat_map segment_calls (map (row_line cv) (grid this))
     ++ flat_map segment_calls (map (col_line cv) (hd [] (grid this)))
     ++ [stroke],
     Ok tt).
Proof.
  intros Hne Hrows. unfold VectorField.drawGrid.
  rewrite (for_of_calls _ (fun row => segment_calls (row_line cv row))).
  2:{ intros row Hin. rewrite Forall_forall in Hrows.
      specialize (Hrows row Hin). destruct row; [congruence|reflexivity]. }
  destruct (grid this) as [|grid0 rest] eqn:Hg; [congruence|].
  rewrite (for_of_calls _ (fun col => segment_calls (col_line cv col)))
    by reflexivity.
  cbn [bind call app hd]. rewrite !flat_map_concat_map, !map_map.
  reflexivity.
Qed.

Lemma drawGrid_segments (cv : Canvas) (this : VectorField) :
  grid this <> [] ->
  Forall (fun row => row <> []) (grid this) ->
  result (VectorField.drawGrid cv this) = Ok tt /\
  segments (calls (VectorField.drawGrid cv this))
  = map (row_line cv) (grid this) ++ map (col_line cv) (hd [] (grid this)).
Proof.
  intros Hne Hrows. rewrite (drawGrid_eq cv this Hne Hrows).
  split; [reflexivity|].
  unfold segments, calls. cbn [fst app segments_from].
  rewrite segments_from_pairs.
  - now rewrite segments_from_pairs_stroke.
  - intros pen. now rewrite !segments_from_pairs_stroke.
Qed.


Lemma drawGrid_empty_grid (cv : Canvas) (this : VectorField) :
  grid this = [] ->
  result (VectorField.drawGrid cv this) = TypeError.
Proof. unfold VectorField.drawGrid. now intros ->. Qed.











(** * Further properties of the code *)

(** ** The length set by [Vector.update] *)

Lemma update_len_mono (f1 f2 : R) :
  f1 <= f2 -> Vector.update_len f1 <= Vector.update_len f2.
Proof.
  intros H. unfold Vector.update_len.
  destruct (Rgt_dec (200 * f1) 30), (Rgt_dec (200 * f2) 30); lra.
Qed.

Lemma update_factor_mono (cv : Canvas) (d1 d2 : R) :
  0 < width cv -> d1 <= d2 ->
  Vector.update_factor cv d1 <= Vector.update_factor cv d2.
Proof.
  intros Hw H. unfold Vector.update_factor.
  apply Rmult_le_compat_r; [|exact H].
  apply Rlt_le, Rinv_0_lt_compat. lra.
Qed.

(** X2.  On a canvas of positive width the length [Vector.update] sets is
    [0] exactly when the pointer is on the anchor, is [30] exactly when the
    pointer is at least [0.195 * width] away, and never decreases when the
    distance grows. *)
Theorem update_len_by_distance
  (cv : Canvas) (this : Vector) (mouseX mouseY : R) :
  0 < width cv ->
  let d := dist (midX this) (midY this) mouseX mouseY in
  exists (v : Vector) (l : R),
    result (Vector.update cv this mouseX mouseY) = Ok v /\
    len v = Some l /\
    (l = 0 <-> mouseX = midX this /\ mouseY = midY this) /\
    (l = 30 <-> 0.195 * width cv <= d) /\
    (forall (x y : R) (v' : Vector) (l' : R),
       d <= dist (midX this) (midY this) x y ->
       result (Vector.update cv this x y) = Ok v' ->
       len v' = Some l' ->
       l <= l').
Proof.
  intros Hw d. rewrite update_eq. cbv zeta. fold d.
  eexists. eexists. split; [reflexivity|]. split; [reflexivity|].
  assert (Hd : 0 <= d) by apply dist_nonneg.
  assert (Hf : Vector.update_factor cv d * (width cv * 1.3) = d).
  { unfold Vector.update_factor. field. lra. }
  pose proof (update_factor_nonneg cv d Hw Hd) as Hf0.
  split; [|split].
  - rewrite <- (dist_zero_iff (midX this) (midY this) mouseX mouseY).
    fold d. unfold Vector.update_len.
    destruct (Rgt_dec (200 * Vector.update_factor cv d) 30); split; nra.
  - unfold Vector.update_len.
    destruct (Rgt_dec (200 * Vector.update_factor cv d) 30); split; nra.
  - intros x y v' l' Hdd Hr Hl. rewrite update_eq in Hr. cbv zeta in Hr.
    cbn [result snd] in Hr. injection Hr as <-. cbn [len] in Hl.
    injection Hl as <-.
    apply update_len_mono, update_factor_mono; assumption.
Qed.

Lemma update_len_by_distance_witness :
  0 < width (mkCanvas 1000 600) /\
  let d := dist 0 0 100 0 in
  exists (v : Vector) (l : R),
    result (Vector.update (mkCanvas 1000 600) (new_Vector 0 0) 100 0) = Ok v /\
    len v = Some l /\
    (l = 0 <-> 100 = 0 /\ 0 = 0) /\
    (l = 30 <-> 0.195 * 1000 <= d) /\
    (forall (x y : R) (v' : Vector) (l' : R),
       d <= dist 0 0 x y ->
       result (Vector.update (mkCanvas 1000 600) (new_Vector 0 0) x y)
       = Ok v' ->
       len v' = Some l' ->
       l <= l').
Proof.
  split; [simpl; lra|].
  apply (update_len_by_distance (mkCanvas 1000 600) (new_Vector 0 0) 100 0).
  simpl; lra.
Defined.

(** ** Polar coordinates *)


(** ** When [drawGrid] throws *)

Lemma calls_bind_throw {A B} (m : Draw A) (k : A -> Draw B) :
  result m = TypeError -> calls (bind m k) = calls m.
Proof.
  destruct m as [l [a|]]; simpl; intros H; [discriminate|reflexivity].
Qed.

Lemma result_unit (m : Draw unit) :
  result m = Ok tt \/ result m = TypeError.
Proof. destruct m as [l [[]|]]; [now left|now right]. Qed.

Lemma nonempty_rows (g : list (list Vector)) :
  Forall (fun row => row <> []) g <-> ~ In [] g.
Proof.
  rewrite Forall_forall. split.
  - intros H Hin. now apply (H [] Hin).
  - intros H row Hin ->. now apply H.
Qed.

Lemma empty_row_dec (g : list (list Vector)) : In [] g \/ ~ In [] g.
Proof.
  induction g as [|row g [IH|IH]].
  - right. intros [].
  - left. now right.
  - destruct row as [|v row].
    + left. now left.
    + right. intros [H|H]; [discriminate|contradiction].
Qed.

Lemma bad_grid_dec (g : list (list Vector)) :
  (g = [] \/ In [] g) \/ ~ (g = [] \/ In [] g).
Proof.
  destruct g as [|row g]; [left; now left|].
  destruct (empty_row_dec (row :: g)) as [H|H]; [left; now right|].
  right. intros [E|E]; [discriminate|contradiction].
Qed.

(** The loop over the rows stops with a [TypeError] at the first empty
    row; the calls made until then are [moveTo] and [lineTo] only. *)
Lemma for_of_rows_throw (cv : Canvas) (g : list (list Vector)) :
  let body := fun row : list Vector =>
    match row with
    | [] => throw
    | row0 :: _ =>
        let y := midY row0 in
        call (moveTo 0 y) ;; call (lineTo (width cv) y)
    end in
  In [] g ->
  result (for_of g body) = TypeError /\ ~ In stroke (calls (for_of g body)).
Proof.
  intros body. induction g as [|row g IH]; intros Hin; [destruct Hin|].
  destruct row as [|v row].
  - split; [reflexivity|]. intros [].
  - destruct Hin as [Hin|Hin]; [discriminate|].
    destruct (IH Hin) as [Hr Hc].
    cbn [for_of]. split.
    + now rewrite (result_bind (body (v :: row)) _ tt eq_refl).
    + rewrite (calls_bind (body (v :: row)) _ tt eq_refl).
      intros Hs. apply in_app_or in Hs. destruct Hs as [Hs|Hs].
      * cbn in Hs. intuition discriminate.
      * now apply Hc.
Qed.

Lemma drawGrid_bad (cv : Canvas) (this : VectorField) :
  grid this = [] \/ In [] (grid this) ->
  result (VectorField.drawGrid cv this) = TypeError /\
  ~ In stroke (calls (VectorField.drawGrid cv this)).
Proof.
  intros Hbad. unfold VectorField.drawGrid.
  set (body := fun row : list Vector => _).
  rewrite !(result_bind (call _) _ tt eq_refl).
  rewrite !(calls_bind (call _) _ tt eq_refl).
  destruct (empty_row_dec (grid this)) as [Hin|Hnin].
  - destruct (for_of_rows_throw cv (grid this) Hin) as [Hr Hc].
    fold body in Hr, Hc.
    rewrite (result_bind_throw _ _ Hr), (calls_bind_throw _ _ Hr).
    split; [reflexivity|].
    cbn [calls call fst app]. intros [H|[H|[H|H]]]; try discriminate.
    now apply Hc.
  - destruct Hbad as [Hnil|Hin]; [|contradiction].
    rewrite Hnil. split; [reflexivity|].
    cbn. intuition discriminate.
Qed.

Lemma drawGrid_good (cv : Canvas) (this : VectorField) :
  ~ (grid this = [] \/ In [] (grid this)) ->
  result (VectorField.drawGrid cv this) = Ok tt /\
  segments (calls (VectorField.drawGrid cv this))
  = map (row_line cv) (grid this) ++ map (col_line cv) (hd [] (grid this)).
Proof.
  intros Hgood. apply drawGrid_segments; [tauto|].
  apply nonempty_rows. tauto.
Qed.


(** ** One frame: [VectorField.update] and the listener *)

Lemma update_updated (cv : Canvas) (v : Vector) (mouseX mouseY : R) :
  Vector.update cv v mouseX mouseY
  = (calls (Vector.update cv v mouseX mouseY),
     Ok (updated cv mouseX mouseY v)).
Proof. reflexivity. Qed.

(** [updated] reads the anchor only. *)
Lemma updated_anchor (cv : Canvas) (mouseX mouseY : R) (v : Vector) :
  updated cv mouseX mouseY v
  = updated cv mouseX mouseY (new_Vector (fst (anchor v)) (snd (anchor v))).
Proof. reflexivity. Qed.

Lemma for_of_mut_eq {A} (body : A -> Draw A)
  (f : A -> list CtxCall) (u : A -> A) :
  (forall x, body x = (f x, Ok (u x))) ->
  forall l, for_of_mut l body = (flat_map f l, Ok (map u l)).
Proof.
  intros Hbody. induction l as [|x t IH]; [reflexivity|].
  cbn [for_of_mut]. rewrite Hbody, IH. cbn [bind ret].
  now rewrite app_nil_r.
Qed.

Lemma field_update_ok (cv : Canvas) (this : VectorField) (mouseX mouseY : R) :
  result (VectorField.drawGrid cv this) = Ok tt ->
  VectorField.update cv this mouseX mouseY
  = (calls (VectorField.drawGrid cv this)
     ++ flat_map (flat_map (fun v => calls (Vector.update cv v mouseX mouseY)))
          (grid this),
     Ok (set_grid this (map (map (updated cv mouseX mouseY)) (grid this)))).
Proof.
  intros Hd. unfold VectorField.update.
  rewrite (for_of_mut_eq _
             (flat_map (fun v => calls (Vector.update cv v mouseX mouseY)))
             (map (updated cv mouseX mouseY))).
  2:{ intros row. apply for_of_mut_eq. intros v. apply update_updated. }
  destruct (VectorField.drawGrid cv this) as [l [[]|]]; [|discriminate].
  cbn. now rewrite app_nil_r.
Qed.

Lemma field_update_throw (cv : Canvas) (this : VectorField)
  (mouseX mouseY : R) :
  result (VectorField.drawGrid cv this) = TypeError ->
  VectorField.update cv this mouseX mouseY
  = (calls (VectorField.drawGrid cv this), TypeError).
Proof.
  intros Hd. unfold VectorField.update.
  destruct (VectorField.drawGrid cv this) as [l [[]|]]; [discriminate|].
  reflexivity.
Qed.

(** X6.  [VectorField.update] first draws the grid.  If that throws, the
    update throws with it after the calls of [drawGrid] alone: no vector is
    updated or drawn.  Otherwise it ends normally: its calls are those of
    [drawGrid] followed by those of [Vector.update] on every vector in
    row-major order, 13 calls per vector, and the new grid holds every
    vector as [Vector.update] leaves it. *)
Theorem field_update_frame
  (cv : Canvas) (this : VectorField) (mouseX mouseY : R) :
  (result (VectorField.drawGrid cv this) = TypeError ->
   VectorField.update cv this mouseX mouseY
   = (calls (VectorField.drawGrid cv this), TypeError)) /\
  (result (VectorField.drawGrid cv this) = Ok tt ->
   VectorField.update cv this mouseX mouseY
   = (calls (VectorField.drawGrid cv this)
      ++ flat_map
           (flat_map (fun v => calls (Vector.update cv v mouseX mouseY)))
           (grid this),
      Ok (set_grid this
            (map (map (updated cv mouseX mouseY)) (grid this))))) /\
  (forall v : Vector,
     length (calls (Vector.update cv v mouseX mouseY)) = 13%nat /\
     result (Vector.update cv v mouseX mouseY)
     = Ok (updated cv mouseX mouseY v)).
Proof.
  split; [apply field_update_throw|].
  split; [apply field_update_ok|].
  intros v. split; reflexivity.
Qed.

Lemma field_update_frame_witness :
  let cv := mkCanvas 280 280 in
  let bad := new_VectorField 10 10 20 20 in
  let good := mkVectorField (1, 1) (20, 20) [[new_Vector 20 20]] in
  result (VectorField.drawGrid cv bad) = TypeError /\
  result (VectorField.drawGrid cv good) = Ok tt /\
  VectorField.update cv bad 5 7
  = (calls (VectorField.drawGrid cv bad), TypeError) /\
  VectorField.update cv good 5 7
  = (calls (VectorField.drawGrid cv good)
     ++ flat_map (flat_map (fun v => calls (Vector.update cv v 5 7)))
          (grid good),
     Ok (set_grid good (map (map (updated cv 5 7)) (grid good)))).
Proof.
  cbv zeta.
  assert (Hb : result (VectorField.drawGrid (mkCanvas 280 280)
                         (new_VectorField 10 10 20 20)) = TypeError)
    by reflexivity.
  assert (Hg : result (VectorField.drawGrid (mkCanvas 280 280)
                 (mkVectorField (1, 1) (20, 20) [[new_Vector 20 20]]))
               = Ok tt) by reflexivity.
  split; [exact Hb|]. split; [exact Hg|]. split.
  - exact (proj1 (field_update_frame (mkCanvas 280 280)
                    (new_VectorField 10 10 20 20) 5 7) Hb).
  - exact (proj1 (proj2 (field_update_frame (mkCanvas 280 280)
                           (mkVectorField (1, 1) (20, 20)
                              [[new_Vector 20 20]]) 5 7)) Hg).
Defined.

(** ** The last pointer position decides the field *)

Lemma drawGrid_result_layout (cv : Canvas) (f f' : VectorField) :
  same_layout f f' ->
  result (VectorField.drawGrid cv f') = result (VectorField.drawGrid cv f).
Proof.
  intros (_ & _ & Hg).
  assert (Hin : forall g : list (list Vector),
             In [] g <-> In [] (map (map anchor) g)).
  { intros g. rewrite in_map_iff. split.
    - intros H. now exists [].
    - intros [row [Hrow Hin]]. now destruct row. }
  assert (Hnil : forall g : list (list Vector),
             g = [] <-> map (map anchor) g = []).
  { intros g. now destruct g. }
  assert (Hbad : (grid f' = [] \/ In [] (grid f'))
                 <-> (grid f = [] \/ In [] (grid f))).
  { rewrite (Hin (grid f')), (Hin (grid f)), (Hnil (grid f')),
      (Hnil (grid f)), Hg. reflexivity. }
  destruct (bad_grid_dec (grid f)) as [H|H].
  - destruct (drawGrid_bad cv f H) as [E _].
    destruct (drawGrid_bad cv f' (proj2 Hbad H)) as [E' _]. congruence.
  - destruct (drawGrid_good cv f H) as [E _].
    assert (H' : ~ (grid f' = [] \/ In [] (grid f'))) by tauto.
    destruct (drawGrid_good cv f' H') as [E' _]. congruence.
Qed.

Lemma mousemove_eq (g : Globals) (x y : R) :
  snd (mousemove g x y)
  = match result (VectorField.drawGrid (canvas g) (field g)) with
    | Ok _ =>
        mkGlobals (canvas g)
          (set_grid (field g)
             (map (map (updated (canvas g) x y)) (grid (field g))))
    | TypeError => g
    end.
Proof.
  unfold mousemove.
  rewrite (result_bind (call _) _ tt eq_refl).
  destruct (result_unit (VectorField.drawGrid (canvas g) (field g)))
    as [E|E]; rewrite E.
  - now rewrite (field_update_ok _ _ x y E).
  - now rewrite (field_update_throw _ _ x y E).
Qed.

Lemma run_app (events1 events2 : list (R * R)) :
  forall g : Globals,
    run g (events1 ++ events2) = run (run g events1) events2.
Proof.
  induction events1 as [|[x y] rest IH]; intros g; [reflexivity|].
  cbn [app run]. apply IH.
Qed.

(** A page whose grid cannot be drawn never changes. *)
Lemma run_throw (events : list (R * R)) (g : Globals) :
  result (VectorField.drawGrid (canvas g) (field g)) = TypeError ->
  run g events = g.
Proof.
  intros E. induction events as [|[x y] rest IH]; [reflexivity|].
  cbn [run]. rewrite mousemove_eq, E. exact IH.
Qed.

Lemma updated_layout (cv : Canvas) (x y : R) (g g' : list (list Vector)) :
  map (map anchor) g' = map (map anchor) g ->
  map (map (updated cv x y)) g' = map (map (updated cv x y)) g.
Proof.
  intros H.
  assert (E : forall l : list (list Vector),
            map (map (updated cv x y)) l
            = map (map (fun a => updated cv x y (new_Vector (fst a) (snd a))))
                (map (map anchor) l)).
  { intros l. rewrite map_map. apply map_ext. intros row.
    rewrite map_map. apply map_ext. intros v. apply updated_anchor. }
  now rewrite (E g'), (E g), H.
Qed.

(** X7.  The field after a sequence of pointer events is the field one
    event at the last position alone would give: every [mousemove]
    overwrites [angle] and [len] of every vector from the anchors and the
    pointer, so no earlier position leaves a trace (and a page whose grid
    cannot be drawn stays as it is). *)
Theorem run_last_pointer (g : Globals) (events : list (R * R)) (x y : R) :
  run g (events ++ [(x, y)]) = snd (mousemove g x y).
Proof.
  rewrite run_app. cbn [run].
  destruct (result_unit (VectorField.drawGrid (canvas g) (field g)))
    as [E|E].
  - destruct (run_layout events g) as [Hc Hl].
    pose proof (drawGrid_result_layout (canvas g) _ _ Hl) as Hr.
    rewrite !mousemove_eq, Hc, Hr, E.
    destruct Hl as (Hs & Ho & Hg).
    f_equal. unfold set_grid. rewrite Hs, Ho. f_equal.
    now apply updated_layout.
  - now rewrite (run_throw events g E).
Qed.

(** ** Fields without a cell *)

Lemma ceil_nonpos_iff (x : R) : Z.to_nat (Math.ceil x) = 0%nat <-> x <= 0.
Proof.
  destruct (ceil_spec x) as [H1 H2]. split.
  - intros H. assert (Hz : (Math.ceil x <= 0)%Z) by lia.
    apply IZR_le in Hz. lra.
  - intros H. assert (Hz : (Math.ceil x < 1)%Z) by (apply lt_IZR; lra).
    lia.
Qed.

Lemma lattice_bad_iff (xOffset yOffset spaceX spaceY : R) (n m : nat) :
  let g := lattice xOffset yOffset spaceX spaceY n m in
  (g = [] \/ In [] g) <-> (n = 0 \/ m = 0)%nat.
Proof.
  cbv zeta. split.
  - intros [H|H].
    + right. apply (f_equal (@length _)) in H.
      now rewrite lattice_length in H.
    + left. unfold lattice in H. apply in_map_iff in H.
      destruct H as [j [H _]]. apply (f_equal (@length _)) in H.
      now rewrite lattice_row_length in H.
  - destruct m as [|m]; [intros _; now left|].
    intros [->|H]; [|discriminate]. right.
    rewrite lattice_S. now left.
Qed.

(** X8.  On a freshly constructed field, [init] with [rows <= 0] changes
    nothing, and with [cols <= 0] it pushes empty rows only; after [init],
    [VectorField.update] throws a [TypeError] exactly when [cols <= 0] or
    [rows <= 0], and otherwise ends normally. *)
Theorem init_update_throws_iff
  (cv : Canvas) (cols rows xOffset yOffset mouseX mouseY : R) :
  let f0 := new_VectorField cols rows xOffset yOffset in
  let f := VectorField.init cv f0 in
  (rows <= 0 -> f = f0) /\
  (cols <= 0 -> Forall (fun row => row = []) (grid f)) /\
  (result (VectorField.update cv f mouseX mouseY) = TypeError
   <-> cols <= 0 \/ rows <= 0) /\
  (0 < cols -> 0 < rows ->
   exists f' : VectorField,
     result (VectorField.update cv f mouseX mouseY) = Ok f').
Proof.
  cbv zeta.
  pose proof (init_new_grid cv cols rows xOffset yOffset) as Hg.
  assert (Hbad : (grid (VectorField.init cv
                          (new_VectorField cols rows xOffset yOffset)) = []
                  \/ In [] (grid (VectorField.init cv
                          (new_VectorField cols rows xOffset yOffset))))
                 <-> cols <= 0 \/ rows <= 0).
  { rewrite Hg, lattice_bad_iff, !ceil_nonpos_iff. reflexivity. }
  split; [|split; [|split]].
  - intros Hr. rewrite init_eq. cbn [new_VectorField grid size offsets fst snd].
    apply ceil_nonpos_iff in Hr. rewrite Hr. reflexivity.
  - intros Hc. rewrite Hg. apply ceil_nonpos_iff in Hc. rewrite Hc.
    unfold lattice. apply Forall_map, Forall_forall. now intros j _.
  - rewrite <- Hbad. split.
    + intros Hr. destruct (bad_grid_dec (grid (VectorField.init cv
                    (new_VectorField cols rows xOffset yOffset)))) as [B|B];
        [exact B|].
      destruct (drawGrid_good cv _ B) as [E _].
      rewrite (field_update_ok _ _ mouseX mouseY E) in Hr. discriminate.
    + intros B. destruct (drawGrid_bad cv _ B) as [E _].
      now rewrite (field_update_throw _ _ mouseX mouseY E).
  - intros Hc Hr.
    assert (B : ~ (grid (VectorField.init cv
                     (new_VectorField cols rows xOffset yOffset)) = []
                   \/ In [] (grid (VectorField.init cv
                     (new_VectorField cols rows xOffset yOffset)))))
      by (rewrite Hbad; lra).
    destruct (drawGrid_good cv _ B) as [E _].
    rewrite (field_update_ok _ _ mouseX mouseY E). eexists. reflexivity.
Qed.

(** ** Where the anchors lie *)

(** X9.  On a surface whose width and height are not negative, every
    anchor [init] places lies within one surface width to the right of the
    x offset and one surface height below the y offset (strictly within when
    the width, or the height, is positive): the lattice is never wider or
    taller than the surface. *)
Theorem init_anchor_bounds
  (cv : Canvas) (cols rows xOffset yOffset : R) (i j : nat) (v : Vector) :
  0 <= width cv -> 0 <= height cv ->
  cell (VectorField.init cv (new_VectorField cols rows xOffset yOffset)) i j
  = Some v ->
  xOffset <= midX v <= xOffset + width cv /\
  yOffset <= midY v <= yOffset + height cv /\
  (0 < width cv -> midX v < xOffset + width cv) /\
  (0 < height cv -> midY v < yOffset + height cv).
Proof.
  intros Hw Hh Hcell.
  rewrite (lattice_cell _ _ _ _ _ _ _ _ _
             (init_new_grid cv cols rows xOffset yOffset)) in Hcell.
  destruct (i <? Z.to_nat (Math.ceil cols))%nat eqn:Hi; [|discriminate].
  destruct (j <? Z.to_nat (Math.ceil rows))%nat eqn:Hj; [|discriminate].
  cbn [andb] in Hcell. injection Hcell as <-. cbn [midX midY new_Vector].
  apply Nat.ltb_lt in Hi, Hj.
  assert (Hspan : forall (w c : R) (k : nat),
             0 <= w -> (k < Z.to_nat (Math.ceil c))%nat ->
             0 <= INR k * IZR (Math.floor (w / c)) <= w /\
             (0 < w -> INR k * IZR (Math.floor (w / c)) < w)).
  { intros w c k Hw0 Hk.
    assert (Hkc : INR k < c) by (apply for_loop_test; lia).
    pose proof (pos_INR k) as Hk0.
    assert (Hc : 0 < c) by lra.
    destruct (floor_spec (w / c)) as [Hf1 _].
    assert (Hq : 0 <= w / c).
    { apply Rmult_le_pos; [exact Hw0|]. apply Rlt_le, Rinv_0_lt_compat, Hc. }
    assert (Hf0 : 0 <= IZR (Math.floor (w / c))).
    { apply IZR_le. now apply floor_nonneg. }
    assert (Hqc : w / c * c = w) by (field; lra).
    set (s := IZR (Math.floor (w / c))) in *. set (q := w / c) in *.
    assert (H1 : INR k * s <= INR k * q)
      by (apply Rmult_le_compat_l; assumption).
    assert (H2 : INR k * q <= c * q)
      by (apply Rmult_le_compat_r; lra).
    assert (H3 : 0 <= INR k * s) by (apply Rmult_le_pos; assumption).
    split; [lra|]. intros Hw1.
    assert (Hq1 : 0 < q).
    { unfold q. apply Rmult_lt_0_compat; [exact Hw1|].
      apply Rinv_0_lt_compat, Hc. }
    assert (H4 : INR k * q < c * q)
      by (apply Rmult_lt_compat_r; assumption).
    lra. }
  destruct (Hspan (width cv) cols i Hw Hi) as [[H1 H2] H3].
  destruct (Hspan (height cv) rows j Hh Hj) as [[H4 H5] H6].
  split; [lra|]. split; [lra|]. split.
  - intros H. specialize (H3 H). lra.
  - intros H. specialize (H6 H). lra.
Qed.

Lemma init_anchor_bounds_witness :
  let cv := mkCanvas 280 280 in
  let v := new_Vector (20 + INR 0 * IZR (Math.floor (280 / 1)))
                      (20 + INR 0 * IZR (Math.floor (280 / 1))) in
  0 <= width cv /\ 0 <= height cv /\
  cell (VectorField.init cv (new_VectorField 1 1 20 20)) 0 0 = Some v /\
  20 <= midX v <= 20 + width cv /\
  20 <= midY v <= 20 + height cv /\
  (0 < width cv -> midX v < 20 + width cv) /\
  (0 < height cv -> midY v < 20 + height cv).
Proof.
  cbv zeta.
  assert (Hw : 0 <= width (mkCanvas 280 280)) by (simpl; lra).
  assert (Hh : 0 <= height (mkCanvas 280 280)) by (simpl; lra).
  assert (Hc : cell (VectorField.init (mkCanvas 280 280)
                       (new_VectorField 1 1 20 20)) 0 0
               = Some (new_Vector (20 + INR 0 * IZR (Math.floor (280 / 1)))
                                  (20 + INR 0 * IZR (Math.floor (280 / 1))))).
  { rewrite (lattice_cell _ _ _ _ _ _ _ _ _
               (init_new_grid (mkCanvas 280 280) 1 1 20 20)).
    rewrite (ceil_IZR 1). reflexivity. }
  split; [exact Hw|]. split; [exact Hh|]. split; [exact Hc|].
  exact (init_anchor_bounds (mkCanvas 280 280) 1 1 20 20 0 0 _ Hw Hh Hc).
Defined.

(** ** The page built by [setup] *)

Lemma init_new_bad_iff (cv : Canvas) (cols rows xOffset yOffset : R) :
  let f := VectorField.init cv (new_VectorField cols rows xOffset yOffset) in
  (grid f = [] \/ In [] (grid f)) <-> (cols <= 0 \/ rows <= 0).
Proof.
  cbv zeta.
  rewrite (init_new_grid cv cols rows xOffset yOffset).
  rewrite lattice_bad_iff, !ceil_nonpos_iff. reflexivity.
Qed.

Lemma pixels_nonpos_iff (n : nat) : INR n / 28 <= 0 <-> n = 0%nat.
Proof.
  split.
  - intros H. destruct n as [|n]; [reflexivity|].
    pose proof (lt_0_INR (S n) ltac:(lia)). lra.
  - intros ->. simpl. lra.
Qed.

(** X10.  For a window of any inner size, the page [setup] builds has
    [ceil (innerHeight / 28)] rows of [ceil (innerWidth / 28)] vectors.  A
    pointer event on it throws a [TypeError] exactly when the window has no
    width or no height, and such a page never changes; otherwise the first
    vector is anchored at (20, 20). *)
Theorem setup_page (innerWidth innerHeight : nat) (x y : R) :
  let g := setup innerWidth innerHeight in
  Z.of_nat (length (grid (field g))) = Math.ceil (INR innerHeight / 28) /\
  Forall (fun row =>
            Z.of_nat (length row) = Math.ceil (INR innerWidth / 28))
         (grid (field g)) /\
  (result (VectorField.update (canvas g) (field g) x y) = TypeError
   <-> (innerWidth = 0 \/ innerHeight = 0)%nat) /\
  ((innerWidth = 0 \/ innerHeight = 0)%nat ->
   forall events : list (R * R), run g events = g) /\
  ((0 < innerWidth)%nat -> (0 < innerHeight)%nat ->
   option_map anchor (cell (field g) 0 0) = Some (20, 20)).
Proof.
  cbv zeta. unfold setup. cbn [canvas field width height fst snd].
  set (cv := mkCanvas (INR innerWidth) (INR innerHeight)).
  set (cols := INR innerWidth / 28). set (rows := INR innerHeight / 28).
  assert (Hc : 0 <= cols).
  { unfold cols. pose proof (pos_INR innerWidth). lra. }
  assert (Hr : 0 <= rows).
  { unfold rows. pose proof (pos_INR innerHeight). lra. }
  destruct (init_new_shape cv cols rows 20 20 Hc Hr) as [Hlen Hrows].
  assert (Hbad :
    (grid (VectorField.init cv (new_VectorField cols rows 20 20)) = []
     \/ In [] (grid (VectorField.init cv (new_VectorField cols rows 20 20))))
    <-> (innerWidth = 0 \/ innerHeight = 0)%nat).
  { rewrite <- !pixels_nonpos_iff. apply init_new_bad_iff. }
  split; [exact Hlen|]. split; [exact Hrows|]. split; [|split].
  - rewrite <- Hbad. split.
    + intros Hres.
      destruct (bad_grid_dec (grid (VectorField.init cv
                  (new_VectorField cols rows 20 20)))) as [B|B]; [exact B|].
      destruct (drawGrid_good cv _ B) as [E _].
      rewrite (field_update_ok _ _ x y E) in Hres. discriminate.
    + intros B. destruct (drawGrid_bad cv _ B) as [E _].
      now rewrite (field_update_throw _ _ x y E).
  - intros Hz events. apply run_throw. cbn [canvas field].
    now apply drawGrid_bad, Hbad.
  - intros Hw Hh.
    rewrite (lattice_cell _ _ _ _ _ _ _ _ _
               (init_new_grid cv cols rows 20 20)).
    assert (Hn : (0 < Z.to_nat (Math.ceil cols))%nat).
    { destruct (Z.to_nat (Math.ceil cols)) eqn:E; [|lia].
      apply ceil_nonpos_iff, pixels_nonpos_iff in E. lia. }
    assert (Hm : (0 < Z.to_nat (Math.ceil rows))%nat).
    { destruct (Z.to_nat (Math.ceil rows)) eqn:E; [|lia].
      apply ceil_nonpos_iff, pixels_nonpos_iff in E. lia. }
    apply Nat.ltb_lt in Hn, Hm. rewrite Hn, Hm.
    unfold anchor. cbn [andb option_map new_Vector midX midY INR].
    do 2 f_equal; lra.
Qed.

(** ** How far from its anchor a vector draws *)




(** ** The size of a frame *)

Lemma mousemove_calls (g : Globals) (x y : R) :
  fst (mousemove g x y)
  = clearRect 0 0 (width (canvas g)) (height (canvas g))
    :: calls (VectorField.update (canvas g) (field g) x y).
Proof.
  unfold mousemove.
  set (m := call _ ;; VectorField.update _ _ _ _).
  assert (E : calls m
              = clearRect 0 0 (width (canvas g)) (height (canvas g))
                :: calls (VectorField.update (canvas g) (field g) x y)).
  { unfold m. now rewrite (calls_bind (call _) _ tt eq_refl). }
  now destruct (result m).
Qed.

Lemma length_flat_map_const {A B} (f : A -> list B) (k : nat) (l : list A) :
  (forall x, In x l -> length (f x) = k) ->
  length (flat_map f l) = (k * length l)%nat.
Proof.
  induction l as [|x t IH]; intros H; [cbn; lia|].
  cbn [flat_map length]. rewrite length_app, (H x (or_introl eq_refl)), IH.
  - lia.
  - intros z Hz. apply H. now right.
Qed.

Lemma length_segment_calls (l : list Segment) :
  length (flat_map segment_calls l) = (2 * length l)%nat.
Proof.
  apply length_flat_map_const. now intros [[x0 y0] [x1 y1]] _.
Qed.

(** X12.  On a fresh field with positive [cols] and [rows], after [init],
    a pointer event redraws everything: it clears the surface, draws the
    grid, and then updates and draws every vector in row-major order, in
    [5 + 2 m + 2 n + 13 m n] calls on the context for a grid of [m] rows
    of [n] vectors. *)
Theorem mousemove_frame
  (cv : Canvas) (cols rows xOffset yOffset x y : R) :
  0 < cols -> 0 < rows ->
  let f := VectorField.init cv (new_VectorField cols rows xOffset yOffset) in
  let n := Z.to_nat (Math.ceil cols) in
  let m := Z.to_nat (Math.ceil rows) in
  fst (mousemove (mkGlobals cv f) x y)
  = clearRect 0 0 (width cv) (height cv)
    :: calls (VectorField.drawGrid cv f)
    ++ flat_map (flat_map (fun v => calls (Vector.update cv v x y)))
         (grid f) /\
  length (fst (mousemove (mkGlobals cv f) x y))
  = (5 + 2 * m + 2 * n + 13 * (m * n))%nat.
Proof.
  intros Hc Hr. cbv zeta.
  set (f := VectorField.init cv (new_VectorField cols rows xOffset yOffset)).
  pose proof (init_new_grid cv cols rows xOffset yOffset) as Hg. fold f in Hg.
  assert (B : ~ (grid f = [] \/ In [] (grid f))).
  { unfold f. rewrite init_new_bad_iff. lra. }
  destruct (drawGrid_good cv f B) as [E _].
  rewrite mousemove_calls. cbn [canvas field].
  rewrite (field_update_ok cv f x y E). cbn [calls fst].
  split; [reflexivity|].
  cbn [length]. rewrite length_app.
  rewrite (drawGrid_eq cv f) by (try apply nonempty_rows; tauto).
  cbn [calls fst]. rewrite !length_app, !length_segment_calls, !length_map.
  cbn [length].
  rewrite (length_flat_map_const _ (13 * Z.to_nat (Math.ceil cols))%nat).
  2:{ intros row Hrow. rewrite Hg in Hrow. unfold lattice in Hrow.
      apply in_map_iff in Hrow. destruct Hrow as [j [<- _]].
      rewrite (length_flat_map_const _ 13%nat) by reflexivity.
      now rewrite lattice_row_length. }
  rewrite Hg, lattice_length.
  destruct (Z.to_nat (Math.ceil rows)) as [|m'] eqn:Em.
  { apply ceil_nonpos_iff in Em. lra. }
  rewrite lattice_S. cbn [hd]. rewrite lattice_row_length. lia.
Qed.

Lemma mousemove_frame_witness :
  let cv := mkCanvas 280 280 in
  0 < 10 /\ 0 < 10 /\
  let f := VectorField.init cv (new_VectorField 10 10 20 20) in
  let n := Z.to_nat (Math.ceil 10) in
  let m := Z.to_nat (Math.ceil 10) in
  fst (mousemove (mkGlobals cv f) 5 7)
  = clearRect 0 0 (width cv) (height cv)
    :: calls (VectorField.drawGrid cv f)
    ++ flat_map (flat_map (fun v => calls (Vector.update cv v 5 7)))
         (grid f) /\
  length (fst (mousemove (mkGlobals cv f) 5 7))
  = (5 + 2 * m + 2 * n + 13 * (m * n))%nat.
Proof.
  cbv zeta.
  assert (H : 0 < 10) by lra.
  split; [exact H|]. split; [exact H|].
  exact (mousemove_frame (mkCanvas 280 280) 10 10 20 20 5 7 H H).
Defined.
